(** * Call signalling and chat transport of the React client

    A shallow embedding of [client-react/src/Signaling.js] (the WebRTC
    call component), of the chat component that hosts it
    ([Chat], the file that imports [./Signaling] and [./Chat.css]) and
    of the application shell that hosts the chat
    ([client-react/src/App.js]).

    Both components are React function components.  Three features of
    that programming model shape the embedding:

    - [useState] values are read from the render in which a handler
      was created (the handler's closure) and written through setters;
      every handler therefore takes the rendered snapshot it closes
      over as an argument, and setters write the component's current
      state in the world.  Every event finds the component rendered
      with the state the previous event left.
    - [useRef] cells and the objects they point to (media streams, peer
      connections, the socket, timers) are mutable and live: they are
      fields of the world, read at the moment of use.
    - [async] functions run in segments between the [await]s of
      browser operations; other handlers run in the gaps.  They are
      written in a resumption monad whose suspensions are settled by
      the environment.  Awaiting an [async] function of the component
      itself adds no gap of its own: no event is handled between its
      return and the resumption of its caller.

    Logging to the console is not part of the model. *)

From Stdlib Require Import DecimalString.
From stdpp Require Import base list strings gmap.

Open Scope string_scope.
Open Scope list_scope.

(** ** Asynchronous procedures *)

Section Async.
(** [Q]: the asynchronous operations awaited, [R]: what the
    environment settles them with, [W]: the world. *)
Context {Q R W : Type}.

(** How one segment of an [async] function ends, and the world it
    leaves: it returned, it threw, or it is suspended at an [await]. *)
Inductive res (A : Type) : Type :=
| Done (w : W) (a : A)
| Threw (w : W) (msg : string)
| Paused (w : W) (q : Q) (k : R → W → res A).

Definition proc (A : Type) : Type := W → res A.

Definition ret {A} (a : A) : proc A := λ w, Done A w a.
Definition raise {A} (msg : string) : proc A := λ w, Threw A w msg.
Definition await (q : Q) : proc R := λ w, Paused R w q (λ r w', Done R w' r).
Definition gets {A} (f : W → A) : proc A := λ w, Done A w (f w).
Definition modify (f : W → W) : proc unit := λ w, Done unit (f w) tt.

Fixpoint bind_res {A B} (x : res A) (f : A → proc B) : res B :=
  match x with
  | Done _ w a => f a w
  | Threw _ w msg => Threw B w msg
  | Paused _ w q k => Paused B w q (λ r w', bind_res (k r w') f)
  end.

Definition bind {A B} (p : proc A) (f : A → proc B) : proc B :=
  λ w, bind_res (p w) f.

(** [try { p } catch (e) { h e.message }]; the handler also covers
    what [p] throws after it was resumed. *)
Fixpoint catch_res {A} (x : res A) (h : string → proc A) : res A :=
  match x with
  | Done _ w a => Done A w a
  | Threw _ w msg => h msg w
  | Paused _ w q k => Paused A w q (λ r w', catch_res (k r w') h)
  end.

Definition try_catch {A} (p : proc A) (h : string → proc A) : proc A :=
  λ w, catch_res (p w) h.

Definition when (b : bool) (p : proc unit) : proc unit :=
  if b then p else ret tt.

(** The world a segment leaves behind. *)
Definition after {A} (x : res A) : W :=
  match x with
  | Done _ w _ | Threw _ w _ | Paused _ w _ _ => w
  end.

(** *** The event loop *)

(** A suspended task: the operation it awaits and its continuation. *)
Definition task : Type := Q * (R → proc unit).

Record loop : Type := Queue { world : W; tasks : list task }.

(** A task that ends, normally or by an uncaught exception, is gone;
    one that awaits is queued. *)
Definition park (ts : list task) (x : res unit) : loop :=
  match x with
  | Done _ w _ | Threw _ w _ => Queue w ts
  | Paused _ w q k => Queue w (ts ++ [(q, k)])
  end.

(** Call an async function: it runs up to its first [await]. *)
Definition spawn (p : proc unit) (l : loop) : loop :=
  park (tasks l) (p (world l)).

(** Run a synchronous handler. *)
Definition sync (f : W → W) (l : loop) : loop :=
  Queue (f (world l)) (tasks l).

(** The environment settles the [i]-th pending operation with [r];
    its task runs up to its next [await]. *)
Definition settle (i : nat) (r : R) (l : loop) : loop :=
  match (tasks l : list (Q * (R → proc unit))) !! i with
  | Some (_, k) => park (delete i (tasks l)) (k r (world l))
  | None => l
  end.

Definition awaited (l : loop) : list Q := fst <$> tasks l.
End Async.

Arguments res : clear implicits.
Arguments proc : clear implicits.
Arguments task : clear implicits.
Arguments loop : clear implicits.
Arguments Done {Q R W A}.
Arguments Threw {Q R W A}.
Arguments Paused {Q R W A}.

Declare Scope proc_scope.
Delimit Scope proc_scope with proc.
Notation "x <- p ;; q" := (bind p (λ x, q))
  (at level 100, p at next level, right associativity) : proc_scope.
Notation "p ;; q" := (bind p (λ _, q))
  (at level 100, right associativity) : proc_scope.

(** ** The call component ([Signaling.js]) *)

Module Signaling.

Definition UserId : Type := string.

(** Session descriptors and ICE candidates are opaque to the component. *)
Definition Blob : Type := string.

Inductive CallStatus : Type := idle | calling | connecting | connected | ended.

Inductive SignalType : Type :=
| Offer | Answer | IceCandidate | CallEnded | CallRejected | Unknown (t : string).

#[export] Instance SignalType_eq_dec : EqDecision SignalType.
Proof. solve_decision. Defined.

(** A signal handed to [handleRemoteSignal]: [{type, data, from_user}]. *)
Record Incoming : Type :=
  { in_type : SignalType; in_data : Blob; from_user : UserId }.

(** A signal handed to [onSignal]: [{type, data, target_user}]. *)
Record Outgoing : Type :=
  { out_type : SignalType; out_data : option Blob; target_user : option UserId }.

(** The five [useState] cells, as one render sees them. *)
Record CallState : Type :=
  { isInCall : bool; isConnecting : bool; isMuted : bool;
    callStatus : CallStatus; remoteUserId : option UserId }.

(** A [MediaStream] with its one audio track ([video: false]): how often
    the track was stopped, and its [enabled] flag. *)
Record MediaStream : Type := { stops : nat; enabled : bool }.

(** An [RTCPeerConnection].  [closure] is the render whose
    [remoteUserId] and [handleEndCall] its callbacks close over: the
    render that ran [createPeerConnection]. *)
Record PeerConnection : Type :=
  { closes : nat; senders : list nat;
    localDescription : option Blob; remoteDescription : option Blob;
    candidates : list Blob; iceRestarts : nat; closure : CallState }.

(** The component instance and what it can touch.  Streams and
    connections are heap objects named by their index; the capture
    streams of [getUserMedia] and the streams of remote tracks come
    from different sources and are kept apart.  The last four fields
    record the calls of [onSignal], [alert], [window.confirm] and
    [onCallStateChange]. *)
Record World : Type :=
  { state : CallState;
    localStreamRef : option nat; remoteStreamRef : option nat;
    peerConnectionRef : option nat;
    localAudioSrc : option nat; remoteAudioSrc : option nat;
    captures : list MediaStream; remotes : list MediaStream;
    connections : list PeerConnection;
    signals : list Outgoing; alerts : list string; dialogs : list string;
    callStateChanges : list bool }.

Definition with_isInCall (x : bool) (s : CallState) : CallState :=
  {| isInCall := x; isConnecting := isConnecting s; isMuted := isMuted s;
     callStatus := callStatus s; remoteUserId := remoteUserId s |}.
Definition with_isConnecting (x : bool) (s : CallState) : CallState :=
  {| isInCall := isInCall s; isConnecting := x; isMuted := isMuted s;
     callStatus := callStatus s; remoteUserId := remoteUserId s |}.
Definition with_isMuted (x : bool) (s : CallState) : CallState :=
  {| isInCall := isInCall s; isConnecting := isConnecting s; isMuted := x;
     callStatus := callStatus s; remoteUserId := remoteUserId s |}.
Definition with_callStatus (x : CallStatus) (s : CallState) : CallState :=
  {| isInCall := isInCall s; isConnecting := isConnecting s;
     isMuted := isMuted s; callStatus := x; remoteUserId := remoteUserId s |}.
Definition with_remoteUserId (x : option UserId) (s : CallState) : CallState :=
  {| isInCall := isInCall s; isConnecting := isConnecting s;
     isMuted := isMuted s; callStatus := callStatus s; remoteUserId := x |}.

Definition pc_closes (x : nat) (c : PeerConnection) : PeerConnection :=
  {| closes := x; senders := senders c;
     localDescription := localDescription c;
     remoteDescription := remoteDescription c; candidates := candidates c;
     iceRestarts := iceRestarts c; closure := closure c |}.
Definition pc_senders (x : list nat) (c : PeerConnection) : PeerConnection :=
  {| closes := closes c; senders := x;
     localDescription := localDescription c;
     remoteDescription := remoteDescription c; candidates := candidates c;
     iceRestarts := iceRestarts c; closure := closure c |}.
Definition pc_localDescription (x : option Blob) (c : PeerConnection) : PeerConnection :=
  {| closes := closes c; senders := senders c; localDescription := x;
     remoteDescription := remoteDescription c; candidates := candidates c;
     iceRestarts := iceRestarts c; closure := closure c |}.
Definition pc_remoteDescription (x : option Blob) (c : PeerConnection) : PeerConnection :=
  {| closes := closes c; senders := senders c;
     localDescription := localDescription c; remoteDescription := x;
     candidates := candidates c; iceRestarts := iceRestarts c;
     closure := closure c |}.
Definition pc_candidates (x : list Blob) (c : PeerConnection) : PeerConnection :=
  {| closes := closes c; senders := senders c;
     localDescription := localDescription c;
     remoteDescription := remoteDescription c; candidates := x;
     iceRestarts := iceRestarts c; closure := closure c |}.
Definition pc_iceRestarts (x : nat) (c : PeerConnection) : PeerConnection :=
  {| closes := closes c; senders := senders c;
     localDescription := localDescription c;
     remoteDescription := remoteDescription c; candidates := candidates c;
     iceRestarts := x; closure := closure c |}.
Definition pc_closure (x : CallState) (c : PeerConnection) : PeerConnection :=
  {| closes := closes c; senders := senders c;
     localDescription := localDescription c;
     remoteDescription := remoteDescription c; candidates := candidates c;
     iceRestarts := iceRestarts c; closure := x |}.

Definition set_state (x : CallState) (w : World) : World :=
  {| state := x; localStreamRef := localStreamRef w;
     remoteStreamRef := remoteStreamRef w;
     peerConnectionRef := peerConnectionRef w;
     localAudioSrc := localAudioSrc w; remoteAudioSrc := remoteAudioSrc w;
     captures := captures w; remotes := remotes w;
     connections := connections w; signals := signals w;
     alerts := alerts w; dialogs := dialogs w;
     callStateChanges := callStateChanges w |}.
Definition set_localStreamRef (x : option nat) (w : World) : World :=
  {| state := state w; localStreamRef := x;
     remoteStreamRef := remoteStreamRef w;
     peerConnectionRef := peerConnectionRef w;
     localAudioSrc := localAudioSrc w; remoteAudioSrc := remoteAudioSrc w;
     captures := captures w; remotes := remotes w;
     connections := connections w; signals := signals w;
     alerts := alerts w; dialogs := dialogs w;
     callStateChanges := callStateChanges w |}.
Definition set_remoteStreamRef (x : option nat) (w : World) : World :=
  {| state := state w; localStreamRef := localStreamRef w;
     remoteStreamRef := x; peerConnectionRef := peerConnectionRef w;
     localAudioSrc := localAudioSrc w; remoteAudioSrc := remoteAudioSrc w;
     captures := captures w; remotes := remotes w;
     connections := connections w; signals := signals w;
     alerts := alerts w; dialogs := dialogs w;
     callStateChanges := callStateChanges w |}.
Definition set_peerConnectionRef (x : option nat) (w : World) : World :=
  {| state := state w; localStreamRef := localStreamRef w;
     remoteStreamRef := remoteStreamRef w; peerConnectionRef := x;
     localAudioSrc := localAudioSrc w; remoteAudioSrc := remoteAudioSrc w;
     captures := captures w; remotes := remotes w;
     connections := connections w; signals := signals w;
     alerts := alerts w; dialogs := dialogs w;
     callStateChanges := callStateChanges w |}.
Definition set_localAudioSrc (x : option nat) (w : World) : World :=
  {| state := state w; localStreamRef := localStreamRef w;
     remoteStreamRef := remoteStreamRef w;
     peerConnectionRef := peerConnectionRef w; localAudioSrc := x;
     remoteAudioSrc := remoteAudioSrc w; captures := captures w;
     remotes := remotes w; connections := connections w;
     signals := signals w; alerts := alerts w; dialogs := dialogs w;
     callStateChanges := callStateChanges w |}.
Definition set_remoteAudioSrc (x : option nat) (w : World) : World :=
  {| state := state w; localStreamRef := localStreamRef w;
     remoteStreamRef := remoteStreamRef w;
     peerConnectionRef := peerConnectionRef w;
     localAudioSrc := localAudioSrc w; remoteAudioSrc := x;
     captures := captures w; remotes := remotes w;
     connections := connections w; signals := signals w;
     alerts := alerts w; dialogs := dialogs w;
     callStateChanges := callStateChanges w |}.
Definition set_captures (x : list MediaStream) (w : World) : World :=
  {| state := state w; localStreamRef := localStreamRef w;
     remoteStreamRef := remoteStreamRef w;
     peerConnectionRef := peerConnectionRef w;
     localAudioSrc := localAudioSrc w; remoteAudioSrc := remoteAudioSrc w;
     captures := x; remotes := remotes w; connections := connections w;
     signals := signals w; alerts := alerts w; dialogs := dialogs w;
     callStateChanges := callStateChanges w |}.
Definition set_remotes (x : list MediaStream) (w : World) : World :=
  {| state := state w; localStreamRef := localStreamRef w;
     remoteStreamRef := remoteStreamRef w;
     peerConnectionRef := peerConnectionRef w;
     localAudioSrc := localAudioSrc w; remoteAudioSrc := remoteAudioSrc w;
     captures := captures w; remotes := x; connections := connections w;
     signals := signals w; alerts := alerts w; dialogs := dialogs w;
     callStateChanges := callStateChanges w |}.
Definition set_connections (x : list PeerConnection) (w : World) : World :=
  {| state := state w; localStreamRef := localStreamRef w;
     remoteStreamRef := remoteStreamRef w;
     peerConnectionRef := peerConnectionRef w;
     localAudioSrc := localAudioSrc w; remoteAudioSrc := remoteAudioSrc w;
     captures := captures w; remotes := remotes w; connections := x;
     signals := signals w; alerts := alerts w; dialogs := dialogs w;
     callStateChanges := callStateChanges w |}.
Definition set_signals (x : list Outgoing) (w : World) : World :=
  {| state := state w; localStreamRef := localStreamRef w;
     remoteStreamRef := remoteStreamRef w;
     peerConnectionRef := peerConnectionRef w;
     localAudioSrc := localAudioSrc w; remoteAudioSrc := remoteAudioSrc w;
     captures := captures w; remotes := remotes w;
     connections := connections w; signals := x; alerts := alerts w;
     dialogs := dialogs w; callStateChanges := callStateChanges w |}.
Definition set_alerts (x : list string) (w : World) : World :=
  {| state := state w; localStreamRef := localStreamRef w;
     remoteStreamRef := remoteStreamRef w;
     peerConnectionRef := peerConnectionRef w;
     localAudioSrc := localAudioSrc w; remoteAudioSrc := remoteAudioSrc w;
     captures := captures w; remotes := remotes w;
     connections := connections w; signals := signals w; alerts := x;
     dialogs := dialogs w; callStateChanges := callStateChanges w |}.
Definition set_dialogs (x : list string) (w : World) : World :=
  {| state := state w; localStreamRef := localStreamRef w;
     remoteStreamRef := remoteStreamRef w;
     peerConnectionRef := peerConnectionRef w;
     localAudioSrc := localAudioSrc w; remoteAudioSrc := remoteAudioSrc w;
     captures := captures w; remotes := remotes w;
     connections := connections w; signals := signals w;
     alerts := alerts w; dialogs := x;
     callStateChanges := callStateChanges w |}.
Definition set_callStateChanges (x : list bool) (w : World) : World :=
  {| state := state w; localStreamRef := localStreamRef w;
     remoteStreamRef := remoteStreamRef w;
     peerConnectionRef := peerConnectionRef w;
     localAudioSrc := localAudioSrc w; remoteAudioSrc := remoteAudioSrc w;
     captures := captures w; remotes := remotes w;
     connections := connections w; signals := signals w;
     alerts := alerts w; dialogs := dialogs w; callStateChanges := x |}.

(** What the component awaits from the browser. *)
Inductive Request : Type :=
| GetUserMedia
| CreateOffer (pc : nat)
| CreateAnswer (pc : nat)
| SetLocalDescription (pc : nat) (d : Blob)
| SetRemoteDescription (pc : nat) (d : Blob)
| AddIceCandidate (pc : nat) (c : Blob).

(** A promise is fulfilled (with a descriptor where one is produced)
    or rejected with an error message. *)
Inductive Reply : Type := Resolved (v : Blob) | Rejected (msg : string).

(** Fulfilled with nothing the component looks at. *)
Definition fulfilled : Reply := Resolved EmptyString.

Abbreviation Proc := (proc Request Reply World).

Open Scope proc_scope.

(** [await q], throwing on rejection. *)
Definition awaitv (q : Request) : Proc Blob :=
  r <- await q ;;
  match r with
  | Resolved v => ret v
  | Rejected msg => raise msg
  end.

(** *** State setters and the props *)

Definition setIsInCall (b : bool) : Proc unit :=
  modify (λ w, set_state (with_isInCall b (state w)) w).
Definition setIsConnecting (b : bool) : Proc unit :=
  modify (λ w, set_state (with_isConnecting b (state w)) w).
Definition setIsMuted (b : bool) : Proc unit :=
  modify (λ w, set_state (with_isMuted b (state w)) w).
Definition setCallStatus (c : CallStatus) : Proc unit :=
  modify (λ w, set_state (with_callStatus c (state w)) w).
Definition setRemoteUserId (u : option UserId) : Proc unit :=
  modify (λ w, set_state (with_remoteUserId u (state w)) w).

Definition onSignal (s : Outgoing) : Proc unit :=
  modify (λ w, set_signals (signals w ++ [s]) w).
Definition onCallStateChange (b : bool) : Proc unit :=
  modify (λ w, set_callStateChanges (callStateChanges w ++ [b]) w).
Definition alert (msg : string) : Proc unit :=
  modify (λ w, set_alerts (alerts w ++ [msg]) w).

(** [window.confirm(msg)]: the dialog is shown and the user's reply
    [reply] comes back. *)
Definition confirm (reply : bool) (msg : string) : Proc bool :=
  modify (λ w, set_dialogs (dialogs w ++ [msg]) w) ;; ret reply.

(** JavaScript truthiness of a user identifier that may be [null]. *)
Definition truthy (u : option UserId) : bool :=
  match u with
  | Some s => negb (String.eqb s EmptyString)
  | None => false
  end.

(** *** Heap objects *)

Definition stopTracks (s : MediaStream) : MediaStream :=
  {| stops := S (stops s); enabled := enabled s |}.

Definition close (c : PeerConnection) : PeerConnection :=
  pc_closes (S (closes c)) c.

Definition newPeerConnection (rs : CallState) : PeerConnection :=
  {| closes := 0; senders := []; localDescription := None;
     remoteDescription := None; candidates := []; iceRestarts := 0;
     closure := rs |}.

(** [createPeerConnection]: a new connection whose four callbacks
    ([on_icecandidate], [on_track], [on_connectionstatechange],
    [on_iceconnectionstatechange] below) close over render [rs]. *)
Definition createPeerConnection (rs : CallState) : Proc nat :=
  pc <- gets (λ w, length (connections w)) ;;
  modify (λ w, set_connections (connections w ++ [newPeerConnection rs]) w) ;;
  ret pc.

(** [stream.getTracks().forEach(track => pc.addTrack(track, stream))] *)
Definition addTracks (pc stream : nat) : Proc unit :=
  modify (λ w, set_connections
    (alter (λ c, pc_senders (senders c ++ [stream]) c) pc (connections w)) w).

(** [getUserMedia]: on success the browser hands over a fresh capture
    stream, which is stored in [localStreamRef] and wired to the local
    audio element; any failure is rethrown with a fixed message. *)
Definition getUserMedia : Proc nat :=
  try_catch
    (_ <- awaitv GetUserMedia ;;
     stream <- gets (λ w, length (captures w)) ;;
     modify (λ w, set_captures
       (captures w ++ [{| stops := 0; enabled := true |}]) w) ;;
     modify (set_localStreamRef (Some stream)) ;;
     modify (set_localAudioSrc (Some stream)) ;;
     ret stream)
    (λ _, raise "Failed to access microphone. Please check permissions.").

(** *** The call operations *)

Definition startCall (rs : CallState) (targetUserId : option UserId) : Proc unit :=
  try_catch
    (setIsConnecting true ;;
     setCallStatus calling ;;
     setRemoteUserId targetUserId ;;
     stream <- getUserMedia ;;
     pc <- createPeerConnection rs ;;
     modify (set_peerConnectionRef (Some pc)) ;;
     addTracks pc stream ;;
     offer <- awaitv (CreateOffer pc) ;;
     _ <- awaitv (SetLocalDescription pc offer) ;;
     modify (λ w, set_connections
       (alter (pc_localDescription (Some offer)) pc (connections w)) w) ;;
     onSignal {| out_type := Offer; out_data := Some offer;
                 target_user := targetUserId |})
    (λ msg,
     setIsConnecting false ;;
     setCallStatus idle ;;
     alert msg).

Definition answerCall (rs : CallState) (offer : Blob) (fromUserId : UserId) : Proc unit :=
  try_catch
    (setIsConnecting true ;;
     setCallStatus connecting ;;
     setRemoteUserId (Some fromUserId) ;;
     stream <- getUserMedia ;;
     pc <- createPeerConnection rs ;;
     modify (set_peerConnectionRef (Some pc)) ;;
     addTracks pc stream ;;
     _ <- awaitv (SetRemoteDescription pc offer) ;;
     modify (λ w, set_connections
       (alter (pc_remoteDescription (Some offer)) pc (connections w)) w) ;;
     answer <- awaitv (CreateAnswer pc) ;;
     _ <- awaitv (SetLocalDescription pc answer) ;;
     modify (λ w, set_connections
       (alter (pc_localDescription (Some answer)) pc (connections w)) w) ;;
     onSignal {| out_type := Answer; out_data := Some answer;
                 target_user := Some fromUserId |})
    (λ msg,
     setIsConnecting false ;;
     setCallStatus idle ;;
     alert ("Failed to answer call: " ++ msg)).

(** [handleEndCall], as created by render [rs]: the test
    [isInCall && remoteUserId] reads that render. *)
Definition handleEndCall (rs : CallState) : Proc unit :=
  ls <- gets localStreamRef ;;
  match ls with
  | Some h =>
      modify (λ w, set_captures (alter stopTracks h (captures w)) w) ;;
      modify (set_localStreamRef None)
  | None => ret tt
  end ;;
  rs' <- gets remoteStreamRef ;;
  match rs' with
  | Some h =>
      modify (λ w, set_remotes (alter stopTracks h (remotes w)) w) ;;
      modify (set_remoteStreamRef None)
  | None => ret tt
  end ;;
  pcr <- gets peerConnectionRef ;;
  match pcr with
  | Some pc =>
      modify (λ w, set_connections (alter close pc (connections w)) w) ;;
      modify (set_peerConnectionRef None)
  | None => ret tt
  end ;;
  modify (set_localAudioSrc None) ;;
  modify (set_remoteAudioSrc None) ;;
  when (isInCall rs && truthy (remoteUserId rs))
    (onSignal {| out_type := CallEnded; out_data := None;
                 target_user := remoteUserId rs |}) ;;
  setIsInCall false ;;
  setIsConnecting false ;;
  setCallStatus idle ;;
  setRemoteUserId None ;;
  setIsMuted false ;;
  onCallStateChange false.

(** [handleRemoteSignal], as exposed by render [rs]; [accept] is what
    the user replies if the confirmation dialog is shown. *)
Definition handleRemoteSignal (rs : CallState) (accept : bool) (signal : Incoming) : Proc unit :=
  try_catch
    (pcr <- gets peerConnectionRef ;;
     if bool_decide (pcr = None) &&
        (bool_decide (in_type signal = Offer) || bool_decide (in_type signal = Answer))
     then ret tt
     else
       match in_type signal with
       | Offer =>
           ok <- confirm accept
             ("Incoming call from user " ++ from_user signal ++ ". Accept?") ;;
           if ok then answerCall rs (in_data signal) (from_user signal)
           else onSignal {| out_type := CallRejected; out_data := None;
                            target_user := Some (from_user signal) |}
       | Answer =>
           pcr' <- gets peerConnectionRef ;;
           match pcr' with
           | Some pc =>
               _ <- awaitv (SetRemoteDescription pc (in_data signal)) ;;
               modify (λ w, set_connections
                 (alter (pc_remoteDescription (Some (in_data signal))) pc
                    (connections w)) w)
           | None => ret tt
           end
       | IceCandidate =>
           pcr' <- gets peerConnectionRef ;;
           match pcr' with
           | Some pc =>
               _ <- awaitv (AddIceCandidate pc (in_data signal)) ;;
               modify (λ w, set_connections
                 (alter (λ c, pc_candidates (candidates c ++ [in_data signal]) c)
                    pc (connections w)) w)
           | None => ret tt
           end
       | CallEnded => handleEndCall rs
       | CallRejected =>
           setIsConnecting false ;;
           setCallStatus idle ;;
           alert "Call was rejected"
       | Unknown _ => ret tt
       end)
    (λ _, ret tt).

(** [toggleMute] *)
Definition toggleMute : Proc unit :=
  ls <- gets localStreamRef ;;
  match ls with
  | Some h =>
      tr <- gets (λ w, captures w !! h) ;;
      match tr with
      | Some s =>
          modify (λ w, set_captures
            (<[h := {| stops := stops s; enabled := negb (enabled s) |}]>
               (captures w)) w) ;;
          setIsMuted (negb (negb (enabled s)))
      | None => ret tt
      end
  | None => ret tt
  end.

(** *** Callbacks of a peer connection

    They run with the render captured when the connection was made. *)

Inductive ConnectionState : Type :=
| cs_new | cs_connecting | cs_connected | cs_disconnected | cs_failed | cs_closed.

Definition on_connectionstatechange (pc : nat) (cs : ConnectionState) : Proc unit :=
  c <- gets (λ w, connections w !! pc) ;;
  match c with
  | Some c =>
      match cs with
      | cs_connected =>
          setCallStatus connected ;;
          setIsConnecting false ;;
          setIsInCall true ;;
          onCallStateChange true
      | cs_disconnected | cs_failed => handleEndCall (closure c)
      | _ => ret tt
      end
  | None => ret tt
  end.

Definition on_icecandidate (pc : nat) (candidate : Blob) : Proc unit :=
  c <- gets (λ w, connections w !! pc) ;;
  match c with
  | Some c =>
      onSignal {| out_type := IceCandidate; out_data := Some candidate;
                  target_user := remoteUserId (closure c) |}
  | None => ret tt
  end.

Definition on_track (pc : nat) : Proc unit :=
  h <- gets (λ w, length (remotes w)) ;;
  modify (λ w, set_remotes (remotes w ++ [{| stops := 0; enabled := true |}]) w) ;;
  modify (set_remoteStreamRef (Some h)) ;;
  modify (set_remoteAudioSrc (Some h)).

Definition on_iceconnectionstatechange (pc : nat) (failed : bool) : Proc unit :=
  when failed
    (modify (λ w, set_connections
       (alter (λ c, pc_iceRestarts (S (iceRestarts c)) c) pc (connections w)) w)).

(** *** The rendered controls

    [Start Call] is rendered when [!isInCall && !isConnecting], an
    [End Call] button when [isConnecting] or [isInCall], the mute
    button when [isInCall]. *)

Definition startRendered (rs : CallState) : bool :=
  negb (isInCall rs) && negb (isConnecting rs).
Definition endRendered (rs : CallState) : bool :=
  isConnecting rs || isInCall rs.

Abbreviation Loop := (loop Request Reply World).

(** The latest render of the component. *)
Definition rendered (l : Loop) : CallState := state (world l).

(** What can happen to the component.  A click reaches the handler of
    the latest render if its button is there; a frame of type
    [webrtc_signal] reaches [handleRemoteSignal] of the latest render
    (the imperative handle is refreshed on every render). *)
Inductive Event : Type :=
| ClickStart
| ClickEnd
| ClickMute
| RemoteSignal (accept : bool) (signal : Incoming)
| Settle (i : nat) (r : Reply)
| ConnectionStateChange (pc : nat) (cs : ConnectionState)
| IceCandidateFound (pc : nat) (candidate : Blob)
| Track (pc : nat)
| IceConnectionStateChange (pc : nat) (failed : bool).

Definition react (l : Loop) (e : Event) : Loop :=
  match e with
  | ClickStart =>
      if startRendered (rendered l) then spawn (startCall (rendered l) None) l
      else l
  | ClickEnd =>
      if endRendered (rendered l) then spawn (handleEndCall (rendered l)) l
      else l
  | ClickMute => if isInCall (rendered l) then spawn toggleMute l else l
  | RemoteSignal accept signal =>
      spawn (handleRemoteSignal (rendered l) accept signal) l
  | Settle i r => settle i r l
  | ConnectionStateChange pc cs => spawn (on_connectionstatechange pc cs) l
  | IceCandidateFound pc c => spawn (on_icecandidate pc c) l
  | Track pc => spawn (on_track pc) l
  | IceConnectionStateChange pc failed =>
      spawn (on_iceconnectionstatechange pc failed) l
  end.

Definition run (l : Loop) (es : list Event) : Loop := foldl react l es.

(** The component as first mounted. *)
Definition mounted : Loop :=
  {| world :=
       {| state := {| isInCall := false; isConnecting := false;
                      isMuted := false; callStatus := idle;
                      remoteUserId := None |};
          localStreamRef := None; remoteStreamRef := None;
          peerConnectionRef := None;
          localAudioSrc := None; remoteAudioSrc := None;
          captures := []; remotes := []; connections := [];
          signals := []; alerts := []; dialogs := [];
          callStateChanges := [] |};
     tasks := [] |}.

(** Observations used in the statements. *)
Definition offersSent (w : World) : nat :=
  length (filter (λ s, out_type s = Offer) (signals w)).

Definition captureStops (w : World) (h : nat) : nat :=
  default 0 (stops <$> captures w !! h).
Definition connectionCloses (w : World) (pc : nat) : nat :=
  default 0 (closes <$> connections w !! pc).

Definition isResolved (r : Reply) : bool :=
  match r with Resolved _ => true | Rejected _ => false end.

(** *** Scenarios *)

Definition anOffer (sdp : Blob) (from : UserId) : Incoming :=
  {| in_type := Offer; in_data := sdp; from_user := from |}.

Definition callEnded (from : UserId) : Incoming :=
  {| in_type := CallEnded; in_data := EmptyString; from_user := from |}.

Definition callRejected (from : UserId) : Incoming :=
  {| in_type := CallRejected; in_data := EmptyString; from_user := from |}.

(** The user clicked [Start Call]; the browser granted the microphone,
    produced the offer and installed it: the offer is out and the
    caller waits for the peer. *)
Definition ringing : Loop :=
  run mounted
    [ClickStart; Settle 0 fulfilled; Settle 0 (Resolved "offer-sdp");
     Settle 0 fulfilled].

(** The peer answered and the connection reported [connected]. *)
Definition inCall : Loop :=
  run ringing
    [RemoteSignal true {| in_type := Answer; in_data := "answer-sdp";
                          from_user := "u2" |};
     Settle 0 fulfilled;
     ConnectionStateChange 0 cs_connected].

(** The microphone was granted and the peer connection made, but
    [createOffer] was rejected. *)
Definition offerFailed : Loop :=
  run mounted
    [ClickStart; Settle 0 fulfilled;
     Settle 0 (Rejected "createOffer failed")].

Close Scope proc_scope.

End Signaling.

(** ** The chat component *)

Module Chat.

Definition UserId : Type := string.

Record Message : Type :=
  { id : nat; content : string; sender : string; timestamp : nat }.

Inductive ConnectionStatus : Type :=
| disconnected | connected | reconnecting | error.

Inductive ReadyState : Type := CONNECTING | OPEN | CLOSING | CLOSED.

#[export] Instance ReadyState_eq_dec : EqDecision ReadyState.
Proof. solve_decision. Defined.

(** Frames the component writes to the socket. *)
Inductive Frame : Type :=
| chat_message (message : string)
| typing (is_typing : bool)
| webrtc_signal (signal : Signaling.Outgoing)
| ping.

(** Parsed frames the socket delivers. *)
Inductive Inbound : Type :=
| in_connection_established (session_id : string)
| in_chat_message (message : Message)
| in_typing_indicator (user_id : UserId) (is_typing : bool)
| in_webrtc_signal (signal : Signaling.Incoming)
| in_voice_data
| in_error (message : string)
| in_pong
| in_unknown (type : string).

(** A [WebSocket]: its [readyState] and what was sent on it. *)
Record Socket : Type := { readyState : ReadyState; sent : list Frame }.

(** The [useState] cells as one render sees them ([conversationId]
    never changes and is left out). *)
Record ChatState : Type :=
  { ws : option nat; messages : list Message; newMessage : string;
    connectionStatus : ConnectionStatus; isTyping : bool;
    typingUsers : list UserId; voiceCallActive : bool }.

(** What a pending [setTimeout] will run: the typing-stop callback of
    [handleTyping], which closes over a render, or the callback of
    [onclose], which closes over the [wsToken] prop. *)
Inductive Job : Type :=
| TypingStop (rs : ChatState)
| MarkReconnecting (wsToken : option string).

Record Timer : Type := { tid : nat; due : nat; job : Job }.

(** The component instance, the sockets it created, the queue of
    pending [setTimeout] callbacks (kept in firing order) and the
    clock, in milliseconds.  [forwarded] records the signals handed to
    the call component, [wsToken] is the prop of that name.

    Left out: the keep-alive effect, which writes a [ping] frame every
    30 s while connected and touches nothing else, the scrolling
    effect, and the markup apart from the conditions under which the
    controls are enabled. *)
Record World : Type :=
  { state : ChatState; typingTimeoutRef : option nat;
    sockets : list Socket; timeouts : list Timer; timerSeq : nat;
    now : nat; forwarded : list Signaling.Incoming;
    wsToken : option string }.

Definition with_ws (x : option nat) (s : ChatState) : ChatState :=
  {| ws := x; messages := messages s; newMessage := newMessage s;
     connectionStatus := connectionStatus s; isTyping := isTyping s;
     typingUsers := typingUsers s; voiceCallActive := voiceCallActive s |}.
Definition with_messages (x : list Message) (s : ChatState) : ChatState :=
  {| ws := ws s; messages := x; newMessage := newMessage s;
     connectionStatus := connectionStatus s; isTyping := isTyping s;
     typingUsers := typingUsers s; voiceCallActive := voiceCallActive s |}.
Definition with_newMessage (x : string) (s : ChatState) : ChatState :=
  {| ws := ws s; messages := messages s; newMessage := x;
     connectionStatus := connectionStatus s; isTyping := isTyping s;
     typingUsers := typingUsers s; voiceCallActive := voiceCallActive s |}.
Definition with_connectionStatus (x : ConnectionStatus) (s : ChatState) : ChatState :=
  {| ws := ws s; messages := messages s; newMessage := newMessage s;
     connectionStatus := x; isTyping := isTyping s;
     typingUsers := typingUsers s; voiceCallActive := voiceCallActive s |}.
Definition with_isTyping (x : bool) (s : ChatState) : ChatState :=
  {| ws := ws s; messages := messages s; newMessage := newMessage s;
     connectionStatus := connectionStatus s; isTyping := x;
     typingUsers := typingUsers s; voiceCallActive := voiceCallActive s |}.
Definition with_typingUsers (x : list UserId) (s : ChatState) : ChatState :=
  {| ws := ws s; messages := messages s; newMessage := newMessage s;
     connectionStatus := connectionStatus s; isTyping := isTyping s;
     typingUsers := x; voiceCallActive := voiceCallActive s |}.
Definition with_voiceCallActive (x : bool) (s : ChatState) : ChatState :=
  {| ws := ws s; messages := messages s; newMessage := newMessage s;
     connectionStatus := connectionStatus s; isTyping := isTyping s;
     typingUsers := typingUsers s; voiceCallActive := x |}.

Definition set_state (x : ChatState) (w : World) : World :=
  {| state := x; typingTimeoutRef := typingTimeoutRef w;
     sockets := sockets w; timeouts := timeouts w; timerSeq := timerSeq w;
     now := now w; forwarded := forwarded w; wsToken := wsToken w |}.
Definition set_typingTimeoutRef (x : option nat) (w : World) : World :=
  {| state := state w; typingTimeoutRef := x; sockets := sockets w;
     timeouts := timeouts w; timerSeq := timerSeq w; now := now w;
     forwarded := forwarded w; wsToken := wsToken w |}.
Definition set_sockets (x : list Socket) (w : World) : World :=
  {| state := state w; typingTimeoutRef := typingTimeoutRef w;
     sockets := x; timeouts := timeouts w; timerSeq := timerSeq w;
     now := now w; forwarded := forwarded w; wsToken := wsToken w |}.
Definition set_timeouts (x : list Timer) (w : World) : World :=
  {| state := state w; typingTimeoutRef := typingTimeoutRef w;
     sockets := sockets w; timeouts := x; timerSeq := timerSeq w;
     now := now w; forwarded := forwarded w; wsToken := wsToken w |}.
Definition set_timerSeq (x : nat) (w : World) : World :=
  {| state := state w; typingTimeoutRef := typingTimeoutRef w;
     sockets := sockets w; timeouts := timeouts w; timerSeq := x; now := now w;
     forwarded := forwarded w; wsToken := wsToken w |}.
Definition set_now (x : nat) (w : World) : World :=
  {| state := state w; typingTimeoutRef := typingTimeoutRef w;
     sockets := sockets w; timeouts := timeouts w; timerSeq := timerSeq w;
     now := x; forwarded := forwarded w; wsToken := wsToken w |}.
Definition set_forwarded (x : list Signaling.Incoming) (w : World) : World :=
  {| state := state w; typingTimeoutRef := typingTimeoutRef w;
     sockets := sockets w; timeouts := timeouts w; timerSeq := timerSeq w;
     now := now w; forwarded := x; wsToken := wsToken w |}.
Definition set_wsToken (x : option string) (w : World) : World :=
  {| state := state w; typingTimeoutRef := typingTimeoutRef w;
     sockets := sockets w; timeouts := timeouts w; timerSeq := timerSeq w;
     now := now w; forwarded := forwarded w; wsToken := x |}.

(** The one thing awaited: [fetch] of [POST /chat/messages/]. *)
Inductive Request : Type := PostMessage (content : string) (sender : string).

(** [fetch] resolves with a response, whatever its status, or rejects
    (network failure) with an error message. *)
Inductive Reply : Type := Response (status : nat) | Failed (msg : string).

Abbreviation Proc := (proc Request Reply World).
Abbreviation Loop := (loop Request Reply World).

Open Scope proc_scope.

(** [response.ok] *)
Definition ok (status : nat) : bool :=
  Nat.leb 200 status && Nat.leb status 299.

(** Decimal rendering of a number inside a template string. *)
Definition show (n : nat) : string := NilZero.string_of_uint (Nat.to_uint n).

(** *** [String.prototype.trim]

    A [string] holds the UTF-8 encoding of a JavaScript string, which
    is how a string literal of this file is read.  [trim] removes the
    white space and line terminators of ECMAScript from both ends:
    TAB, LF, VT, FF, CR and SPACE, which are one byte each, U+00A0,
    which is two, and U+1680, U+2000 to U+200A, U+2028, U+2029,
    U+202F, U+205F, U+3000 and U+FEFF, which are three. *)
Definition isSpace (c : Ascii.ascii) : bool :=
  let n := Ascii.nat_of_ascii c in (Nat.leb 9 n && Nat.leb n 13) || Nat.eqb n 32.

Definition isSpace2 (c1 c2 : Ascii.ascii) : bool :=
  Nat.eqb (Ascii.nat_of_ascii c1) 194 && Nat.eqb (Ascii.nat_of_ascii c2) 160.

Definition isSpace3 (c1 c2 c3 : Ascii.ascii) : bool :=
  let n1 := Ascii.nat_of_ascii c1 in
  let n2 := Ascii.nat_of_ascii c2 in
  let n3 := Ascii.nat_of_ascii c3 in
  (Nat.eqb n1 225 && Nat.eqb n2 154 && Nat.eqb n3 128) ||
  (Nat.eqb n1 226 && Nat.eqb n2 128 &&
     ((Nat.leb 128 n3 && Nat.leb n3 138) ||
      Nat.eqb n3 168 || Nat.eqb n3 169 || Nat.eqb n3 175)) ||
  (Nat.eqb n1 226 && Nat.eqb n2 129 && Nat.eqb n3 159) ||
  (Nat.eqb n1 227 && Nat.eqb n2 128 && Nat.eqb n3 128) ||
  (Nat.eqb n1 239 && Nat.eqb n2 187 && Nat.eqb n3 191).

Fixpoint trimStart (s : string) : string :=
  match s with
  | String c1 s1 =>
      if isSpace c1 then trimStart s1
      else
        match s1 with
        | String c2 s2 =>
            if isSpace2 c1 c2 then trimStart s2
            else
              match s2 with
              | String c3 s3 => if isSpace3 c1 c2 c3 then trimStart s3 else s
              | EmptyString => s
              end
        | EmptyString => s
        end
  | EmptyString => EmptyString
  end.

(** Only characters that [trim] removes. *)
Fixpoint allSpaces (s : string) : bool :=
  match s with
  | String c1 s1 =>
      (isSpace c1 && allSpaces s1) ||
      match s1 with
      | String c2 s2 =>
          (isSpace2 c1 c2 && allSpaces s2) ||
          match s2 with
          | String c3 s3 => isSpace3 c1 c2 c3 && allSpaces s3
          | EmptyString => false
          end
      | EmptyString => false
      end
  | EmptyString => true
  end.

(** The longest suffix made of such characters goes. *)
Fixpoint trimEnd (s : string) : string :=
  match s with
  | String c s' => if allSpaces s then EmptyString else String c (trimEnd s')
  | EmptyString => EmptyString
  end.

Definition trim (s : string) : string := trimEnd (trimStart s).

(** The string with the given bytes. *)
Definition utf8 (bytes : list nat) : string :=
  foldr (λ n s, String (Ascii.ascii_of_nat n) s) EmptyString bytes.

(** Truthiness of a string and of a string that may be [null]. *)
Definition nonEmpty (s : string) : bool := negb (String.eqb s EmptyString).
Definition truthy (s : option string) : bool := from_option nonEmpty false s.

(** *** Setters *)

Definition setMessages (f : list Message → list Message) : Proc unit :=
  modify (λ w, set_state (with_messages (f (messages (state w))) (state w)) w).
Definition setNewMessage (s : string) : Proc unit :=
  modify (λ w, set_state (with_newMessage s (state w)) w).
Definition setConnectionStatus (c : ConnectionStatus) : Proc unit :=
  modify (λ w, set_state (with_connectionStatus c (state w)) w).
Definition setIsTyping (b : bool) : Proc unit :=
  modify (λ w, set_state (with_isTyping b (state w)) w).
Definition setTypingUsers (f : list UserId → list UserId) : Proc unit :=
  modify (λ w, set_state (with_typingUsers (f (typingUsers (state w))) (state w)) w).

(** *** Socket and timeouts *)

(** [ws && ws.readyState === WebSocket.OPEN], for the socket [ws] a
    render holds. *)
Definition isOpen (ws : option nat) (w : World) : bool :=
  match ws with
  | Some h => bool_decide (readyState <$> sockets w !! h = Some OPEN)
  | None => false
  end.

Definition send (h : nat) (f : Frame) : Proc unit :=
  modify (λ w, set_sockets
    (alter (λ s, {| readyState := readyState s; sent := sent s ++ [f] |}) h
       (sockets w)) w).

(** The guarded send all three senders share:
    [if (ws && ws.readyState === WebSocket.OPEN) ws.send(...)]. *)
Definition sendIfOpen (ws : option nat) (f : Frame) : Proc unit :=
  open <- gets (isOpen ws) ;;
  match ws with
  | Some h => when open (send h f)
  | None => ret tt
  end.

(** The queue is ordered by firing time, earlier-set timeouts first
    among equals. *)
Fixpoint enqueue (t : Timer) (q : list Timer) : list Timer :=
  match q with
  | x :: q' => if Nat.leb (due x) (due t) then x :: enqueue t q' else t :: q
  | [] => [t]
  end.

(** [setTimeout(job, delay)]; identifiers are positive, hence truthy. *)
Definition setTimeout (j : Job) (delay : nat) : Proc nat :=
  n <- gets (λ w, S (timerSeq w)) ;;
  modify (set_timerSeq n) ;;
  modify (λ w, set_timeouts
    (enqueue {| tid := n; due := now w + delay; job := j |} (timeouts w)) w) ;;
  ret n.

Definition clearTimeout (n : nat) : Proc unit :=
  modify (λ w, set_timeouts (filter (λ t, tid t ≠ n) (timeouts w)) w).

(** *** Handlers *)

(** The updater [handleTypingIndicator] passes to [setTypingUsers]. *)
Definition typingUpdater (user_id : UserId) (is_typing : bool) (prev : list UserId) : list UserId :=
  if is_typing then
    if negb (bool_decide (user_id ∈ prev)) then prev ++ [user_id] else prev
  else filter (λ id, id ≠ user_id) prev.

Definition handleTypingIndicator (user_id : UserId) (is_typing : bool) : Proc unit :=
  setTypingUsers (typingUpdater user_id is_typing).

(** [handleWebSocketMessage].  For a [webrtc_signal] frame it calls
    [handleRemoteSignal] of the call component; the call is recorded
    in [forwarded].  What the call component does with the signal in
    the same turn is the subject of [Signaling]: the signals it sends
    reach this component as [CallSignal] events, it may report a call
    state to [setVoiceCallActive], and it may suspend on the browser.
    A [chat_message] frame is taken to carry a message object. *)
Definition handleWebSocketMessage (data : Inbound) : Proc unit :=
  match data with
  | in_chat_message m => setMessages (λ prev, (prev ++ [m])%list)
  | in_typing_indicator u b => handleTypingIndicator u b
  | in_webrtc_signal s => modify (λ w, set_forwarded (forwarded w ++ [s]) w)
  | in_connection_established _ | in_voice_data | in_error _ | in_pong
  | in_unknown _ => ret tt
  end.

(** [sendMessage] of render [rs]. *)
Definition sendMessage (rs : ChatState) (content : string) : Proc unit :=
  if negb (nonEmpty (trim content)) then ret tt
  else
    try_catch
      (response <- await (PostMessage content "user") ;;
       status <- match response with
                 | Response status => ret status
                 | Failed msg => raise msg
                 end ;;
       when (negb (ok status))
         (raise ("Failed to send message: " ++ show status)) ;;
       sendIfOpen (ws rs) (chat_message content))
      (λ msg,
       t <- gets now ;;
       setMessages (λ prev, (prev ++
         [{| id := t; content := "Error: " ++ msg; sender := "system";
             timestamp := t |}])%list)).

Definition sendTypingIndicator (rs : ChatState) (is_typing : bool) : Proc unit :=
  sendIfOpen (ws rs) (typing is_typing).

(** [handleTyping] of render [rs], for an input event carrying [value]. *)
Definition handleTyping (rs : ChatState) (value : string) : Proc unit :=
  setNewMessage value ;;
  when (negb (isTyping rs))
    (setIsTyping true ;; sendTypingIndicator rs true) ;;
  pending <- gets typingTimeoutRef ;;
  match pending with
  | Some n => clearTimeout n
  | None => ret tt
  end ;;
  n <- setTimeout (TypingStop rs) 1000 ;;
  modify (set_typingTimeoutRef (Some n)).

Definition handleSignal (rs : ChatState) (signal : Signaling.Outgoing) : Proc unit :=
  sendIfOpen (ws rs) (webrtc_signal signal).

(** The callbacks handed to [setTimeout]. *)
Definition runJob (j : Job) : Proc unit :=
  match j with
  | TypingStop rs => setIsTyping false ;; sendTypingIndicator rs false
  | MarkReconnecting token =>
      when (truthy token) (setConnectionStatus reconnecting)
  end.

(** The socket callbacks installed by the connection effect.  The
    browser has already moved [readyState] when they run. *)
Definition setReadyState (h : nat) (r : ReadyState) : Proc unit :=
  modify (λ w, set_sockets
    (alter (λ s, {| readyState := r; sent := sent s |}) h (sockets w)) w).

Definition onopen (h : nat) : Proc unit :=
  setReadyState h OPEN ;;
  setConnectionStatus connected.

Definition onmessage (data : option Inbound) : Proc unit :=
  match data with
  | Some d => handleWebSocketMessage d
  | None => ret tt
  end.

Definition onclose (h : nat) : Proc unit :=
  setReadyState h CLOSED ;;
  setConnectionStatus disconnected ;;
  token <- gets wsToken ;;
  _ <- setTimeout (MarkReconnecting token) 3000 ;;
  ret tt.

Definition onerror (h : nat) : Proc unit :=
  setConnectionStatus error.

(** *** Time *)

(** Callbacks whose time has come run one after the other, earliest
    first, each at its own time. *)
Fixpoint fireDue (fuel t : nat) (w : World) : World :=
  match fuel with
  | 0 => w
  | S fuel' =>
      match timeouts w with
      | x :: q =>
          if Nat.leb (due x) t
          then fireDue fuel' t
                 (after (runJob (job x)
                    (set_now (Nat.max (now w) (due x)) (set_timeouts q w))))
          else w
      | [] => w
      end
  end.

(** [dt] milliseconds pass with no other event.  Only [setTimeout]
    callbacks are fired: the [ping] frames of the keep-alive interval
    are not written, so what is said of a socket after a wait is said
    of its [typing] frames. *)
Definition elapse (dt : nat) (w : World) : World :=
  set_now (now w + dt) (fireDue (length (timeouts w)) (now w + dt) w).

(** A keystroke in the message input, handled by the latest render. *)
Definition keystroke (value : string) (w : World) : World :=
  after (handleTyping (state w) value w).

(** *** The component's life *)

(** The component after its first render and its connection effect:
    with a token, a socket is created and stored with [setWs]. *)
Definition mount (token : option string) (t0 : nat) : Loop :=
  let s0 := {| ws := None; messages := []; newMessage := EmptyString;
               connectionStatus := disconnected; isTyping := false;
               typingUsers := []; voiceCallActive := false |} in
  {| world :=
       {| state := if truthy token then with_ws (Some 0) s0 else s0;
          typingTimeoutRef := None;
          sockets := if truthy token
                     then [{| readyState := CONNECTING; sent := [] |}]
                     else [];
          timeouts := []; timerSeq := 0; now := t0; forwarded := [];
          wsToken := token |};
     tasks := [] |}.

Definition rendered (l : Loop) : ChatState := state (world l).

(** The input is disabled unless [connectionStatus] is [connected];
    the form submits only with a non-blank draft. *)
Definition inputEnabled (rs : ChatState) : bool :=
  match connectionStatus rs with connected => true | _ => false end.

Inductive Event : Type :=
| Keystroke (value : string)
| Submit
| Elapse (dt : nat)
| SocketOpen (h : nat)
| SocketMessage (data : option Inbound)
| SocketClose (h : nat)
| SocketError (h : nat)
| Settle (i : nat) (r : Reply)
| CallSignal (signal : Signaling.Outgoing).

(** [handleSubmit] starts [sendMessage] without awaiting it. *)
Definition handleSubmit (rs : ChatState) (l : Loop) : Loop :=
  if nonEmpty (trim (newMessage rs)) then
    spawn (sendTypingIndicator rs false)
      (spawn (setNewMessage EmptyString)
         (spawn (sendMessage rs (newMessage rs)) l))
  else l.

Definition react (l : Loop) (e : Event) : Loop :=
  match e with
  | Keystroke v =>
      if inputEnabled (rendered l) then sync (keystroke v) l else l
  | Submit =>
      if inputEnabled (rendered l) then handleSubmit (rendered l) l else l
  | Elapse dt => sync (elapse dt) l
  | SocketOpen h => spawn (onopen h) l
  | SocketMessage d => spawn (onmessage d) l
  | SocketClose h => spawn (onclose h) l
  | SocketError h => spawn (onerror h) l
  | Settle i r => settle i r l
  | CallSignal s => spawn (handleSignal (rendered l) s) l
  end.

Definition run (l : Loop) (es : list Event) : Loop := foldl react l es.

(** Observations used in the statements. *)
Definition timeline (l : Loop) : list Message := messages (rendered l).

Definition isTypingFrame (f : Frame) : bool :=
  match f with typing _ => true | _ => false end.

Definition isTypingStop (j : Job) : bool :=
  match j with TypingStop _ => true | MarkReconnecting _ => false end.

(** What was sent on socket [h], and the [typing] frames among it. *)
Definition sentOn (h : nat) (w : World) : list Frame :=
  from_option sent [] (sockets w !! h).

Definition typingSent (h : nat) (w : World) : list Frame :=
  filter (λ f, isTypingFrame f) (sentOn h w).

(** The message of the error a failed persistence call raises inside
    [sendMessage]: the rejection's own, or the one built from the
    status of a response that is not [ok]. *)
Definition failureReason (r : Reply) : option string :=
  match r with
  | Failed msg => Some msg
  | Response status =>
      if ok status then None
      else Some ("Failed to send message: " ++ show status)%string
  end.

(** The message [sendMessage] appends for a failure at time [t]. *)
Definition errorMessage (t : nat) (reason : string) : Message :=
  {| id := t; content := "Error: " ++ reason; sender := "system";
     timestamp := t |}.

(** Remote typing events, as the socket delivers them. *)
Definition remoteTyping (e : UserId * bool) : Event :=
  SocketMessage (Some (in_typing_indicator e.1 e.2)).

(** The typing registry. *)
Definition registry (l : Loop) : list UserId := typingUsers (rendered l).

(** A burst of typing: a first keystroke, then further ones, each
    [gap] milliseconds after the one before. *)
Definition typeBurst (value : string) (more : list (nat * string)) (w : World) : World :=
  foldl (λ w g, keystroke g.2 (elapse g.1 w)) (keystroke value w) more.

(** The state in the middle of a burst of typing, right after a
    keystroke: [typing true] went out on the open socket [h] after
    the frames [base], and the one pending timer is the typing timer,
    due in 1000 ms. *)
Definition typingInFlight (h : nat) (base : list Frame) (w : World) : Prop :=
  ws (state w) = Some h ∧ isOpen (Some h) w = true ∧
  isTyping (state w) = true ∧
  sentOn h w = base ++ [typing true] ∧
  ∃ n rs, ws rs = Some h ∧
    timeouts w = [{| tid := n; due := now w + 1000; job := TypingStop rs |}] ∧
    typingTimeoutRef w = Some n.

(** The last typing event received for [u], if any. *)
Fixpoint lastTyping (u : UserId) (events : list (UserId * bool)) : option bool :=
  match events with
  | [] => None
  | e :: rest =>
      match lastTyping u rest with
      | Some b => Some b
      | None => if decide (e.1 = u) then Some e.2 else None
      end
  end.

(** Inbound chat messages, as the socket delivers them. *)
Definition remoteMessage (m : Message) : Event :=
  SocketMessage (Some (in_chat_message m)).

(** Events that need no socket: what the user does, time passing,
    the call component handing over a signal, a request settled. *)
Definition needsNoSocket (e : Event) : bool :=
  match e with
  | Keystroke _ | Submit | Elapse _ | Settle _ _ | CallSignal _ => true
  | SocketOpen _ | SocketMessage _ | SocketClose _ | SocketError _ => false
  end.

(** Typing and pausing, in any order. *)
Inductive TypingEvent : Type := Key (value : string) | Pause (dt : nat).

Definition typingStep (w : World) (e : TypingEvent) : World :=
  match e with
  | Key value => keystroke value w
  | Pause dt => elapse dt w
  end.

(** [k] rounds of [typing true] followed by [typing false]. *)
Fixpoint rounds (k : nat) : list Frame :=
  match k with
  | 0 => []
  | S k' => typing true :: typing false :: rounds k'
  end.

(** The pending typing-stop callbacks. *)
Definition typingTimeouts (w : World) : list Timer :=
  filter (λ t, isTypingStop (job t)) (timeouts w).

(** At most one typing-stop callback is pending, and it is the one
    [typingTimeoutRef] names. *)
Definition oneTypingTimeout (w : World) : Prop :=
  (length (typingTimeouts w) ≤ 1)%nat ∧
  Forall (λ t, typingTimeoutRef w = Some (tid t)) (typingTimeouts w).

(** On the open socket [h], since the frames [base], whole rounds of
    [typing true] and [typing false] were written, and one more
    [typing true] exactly while [isTyping] is on, in which case the
    one pending callback is the typing-stop that will close the
    round. *)
Definition typingAlternates (h : nat) (base : list Frame) (w : World) : Prop :=
  ws (state w) = Some h ∧ isOpen (Some h) w = true ∧
  ∃ k,
    if isTyping (state w) then
      sentOn h w = base ++ rounds k ++ [typing true] ∧
      ∃ n rs d, ws rs = Some h ∧
        timeouts w = [{| tid := n; due := d; job := TypingStop rs |}] ∧
        typingTimeoutRef w = Some n
    else sentOn h w = base ++ rounds k ∧ timeouts w = [].

(** The [readyState] of every socket the component created. *)
Definition readyStates (w : World) : list ReadyState :=
  readyState <$> sockets w.

(** A continuation that ends when resumed and leaves the connection
    status, the sockets' states and the token alone. *)
Definition calm (k : Reply → Proc unit) : Prop :=
  ∀ r w, ∃ w', k r w = Done w' tt ∧
    connectionStatus (state w') = connectionStatus (state w) ∧
    readyStates w' = readyStates w ∧
    wsToken w' = wsToken w.

(** A continuation that ends when resumed and leaves the timeouts
    and [typingTimeoutRef] alone. *)
Definition quiet (k : Reply → Proc unit) : Prop :=
  ∀ r w, ∃ w', k r w = Done w' tt ∧
    timeouts w' = timeouts w ∧ typingTimeoutRef w' = typingTimeoutRef w.

(** *** Scenarios *)

(** Mounted with a token at time [0], socket open. *)
Definition online : Loop := run (mount (Some "tok") 0) [SocketOpen 0].

(** The user typed [hello] and submitted it. *)
Definition submitted : Loop := run online [Keystroke "hello"; Submit].

Close Scope proc_scope.

End Chat.

(** ** The application shell ([App.js]) *)

Module App.

(** A JSON object as the server sends it and as [localStorage] keeps
    it: its fields, scalar values kept as their text. *)
Abbreviation Body := (gmap string string).

(** The five [useState] cells.  [user] is [null] or the object the
    server returned for the user; [wsToken] is [null] or
    [tokenData.token]. *)
Record AppState : Type :=
  { user : option Body; apiKey : string; wsToken : option string;
    loading : bool; error : string }.

(** The component and the browser's [localStorage]. *)
Record World : Type :=
  { state : AppState; localStorage : gmap string string }.

Definition with_user (x : option Body) (s : AppState) : AppState :=
  {| user := x; apiKey := apiKey s; wsToken := wsToken s;
     loading := loading s; error := error s |}.
Definition with_apiKey (x : string) (s : AppState) : AppState :=
  {| user := user s; apiKey := x; wsToken := wsToken s;
     loading := loading s; error := error s |}.
Definition with_wsToken (x : option string) (s : AppState) : AppState :=
  {| user := user s; apiKey := apiKey s; wsToken := x;
     loading := loading s; error := error s |}.
Definition with_loading (x : bool) (s : AppState) : AppState :=
  {| user := user s; apiKey := apiKey s; wsToken := wsToken s;
     loading := x; error := error s |}.
Definition with_error (x : string) (s : AppState) : AppState :=
  {| user := user s; apiKey := apiKey s; wsToken := wsToken s;
     loading := loading s; error := x |}.
Definition set_state (x : AppState) (w : World) : World :=
  {| state := x; localStorage := localStorage w |}.
Definition set_localStorage (x : gmap string string) (w : World) : World :=
  {| state := state w; localStorage := x |}.

(** What [handleLogin] awaits: the two [fetch] calls, with the key
    they authorise with, and the reading of a response body. *)
Inductive Request : Type :=
| CreateUser (key username : string)
| IssueToken (key : string) (user_id : option string)
| ReadJson.

(** A [fetch] is settled with a response, of which the status
    counts; [response.json()] with the body read.  Either can be
    rejected. *)
Inductive Reply : Type :=
| Settled (status : nat) (body : Body)
| Failed (msg : string).

Abbreviation Proc := (proc Request Reply World).
Abbreviation Loop := (loop Request Reply World).

Open Scope proc_scope.

Definition setUser (x : option Body) : Proc unit :=
  modify (λ w, set_state (with_user x (state w)) w).
Definition setApiKey (x : string) : Proc unit :=
  modify (λ w, set_state (with_apiKey x (state w)) w).
Definition setWsToken (x : option string) : Proc unit :=
  modify (λ w, set_state (with_wsToken x (state w)) w).
Definition setLoading (x : bool) : Proc unit :=
  modify (λ w, set_state (with_loading x (state w)) w).
Definition setError (x : string) : Proc unit :=
  modify (λ w, set_state (with_error x (state w)) w).

Definition setItem (k v : string) : Proc unit :=
  modify (λ w, set_localStorage (<[k := v]> (localStorage w)) w).
Definition removeItem (k : string) : Proc unit :=
  modify (λ w, set_localStorage (delete k (localStorage w)) w).

(** [await fetch(...)], then the [ok] test with the error it throws. *)
Definition fetchOk (q : Request) (what : string) : Proc unit :=
  r <- await q ;;
  match r with
  | Settled status _ =>
      when (negb (Chat.ok status))
        (raise (what ++ Chat.show status))
  | Failed msg => raise msg
  end.

(** [await response.json()] *)
Definition json : Proc Body :=
  r <- await ReadJson ;;
  match r with
  | Settled _ body => ret body
  | Failed msg => raise msg
  end.

Section Codec.
(** [JSON.stringify] on an object and [JSON.parse] on stored text;
    [parse] gives [None] where [JSON.parse] throws. *)
Variable stringify : Body → string.
Variable parse : string → option Body.

(** [handleLogin] of render [rs]. *)
Definition handleLogin (rs : AppState) (username : string) : Proc unit :=
  setLoading true ;;
  setError EmptyString ;;
  try_catch
    (fetchOk (CreateUser (apiKey rs) username) "Failed to create user: " ;;
     userData <- json ;;
     fetchOk (IssueToken (apiKey rs) (userData !! "id"))
       "Failed to get WebSocket token: " ;;
     tokenData <- json ;;
     setUser (Some userData) ;;
     setWsToken (tokenData !! "token") ;;
     setItem "user" (stringify userData) ;;
     setItem "apiKey" (apiKey rs))
    (λ msg, setError msg) ;;
  setLoading false.

Definition handleLogout : Proc unit :=
  setUser None ;;
  setWsToken None ;;
  removeItem "user" ;;
  removeItem "apiKey".

(** The submit handler of the login form, for the [username] field of
    the form ([null] if the form has none). *)
Definition onSubmit (rs : AppState) (username : option string) : Proc unit :=
  match username with
  | Some name =>
      if Chat.nonEmpty name && Chat.nonEmpty (apiKey rs)
      then handleLogin rs name
      else setError "Please enter both username and API key"
  | None => setError "Please enter both username and API key"
  end.

(** The component after its first render and its mount effect, for
    what [localStorage] holds.  Stored text is taken to be a
    serialized object or not JSON at all. *)
Definition mount (storage : gmap string string) : World :=
  let key := default EmptyString (storage !! "apiKey") in
  let s0 := {| user := None; apiKey := key; wsToken := None;
               loading := false; error := EmptyString |} in
  match storage !! "user" with
  | Some saved =>
      if Chat.nonEmpty saved then
        match parse saved with
        | Some u => {| state := with_user (Some u) s0; localStorage := storage |}
        | None => {| state := s0; localStorage := delete "user" storage |}
        end
      else {| state := s0; localStorage := storage |}
  | None => {| state := s0; localStorage := storage |}
  end.

(** The login form is rendered while there is no user, the chat
    otherwise, with the [wsToken] of the render as its prop. *)
Definition showsChat (rs : AppState) : bool := bool_decide (is_Some (user rs)).

Definition chat (rs : AppState) (t0 : nat) : option Chat.Loop :=
  if showsChat rs then Some (Chat.mount (wsToken rs) t0) else None.

Inductive Event : Type :=
| TypeApiKey (value : string)
| SubmitLogin (username : option string)
| Logout
| Settle (i : nat) (r : Reply).

(** The form and its disabled-while-loading button exist while no
    user is set, the logout button while one is. *)
Definition react (l : Loop) (e : Event) : Loop :=
  let rs := state (world l) in
  match e with
  | TypeApiKey v => if showsChat rs then l else spawn (setApiKey v) l
  | SubmitLogin name =>
      if showsChat rs || loading rs then l else spawn (onSubmit rs name) l
  | Logout => if showsChat rs then spawn handleLogout l else l
  | Settle i r => settle i r l
  end.

Definition run (l : Loop) (es : list Event) : Loop := foldl react l es.

(** A login whose four awaited operations are settled in turn. *)
Definition login (rs : AppState) (username : string) (r1 r2 r3 r4 : Reply) (l : Loop) : Loop :=
  let n := length (tasks l) in
  settle n r4 (settle n r3 (settle n r2 (settle n r1
    (spawn (handleLogin rs username) l)))).

End Codec.

(** The error a [fetch] settled with [r] makes [handleLogin] throw,
    if any, and the one a body read settled with [r] does. *)
Definition fetchError (what : string) (r : Reply) : option string :=
  match r with
  | Settled status _ =>
      if Chat.ok status then None else Some (what ++ Chat.show status)%string
  | Failed msg => Some msg
  end.

Definition jsonError (r : Reply) : option string :=
  match r with
  | Settled _ _ => None
  | Failed msg => Some msg
  end.

(** The first error among the four operations of a login. *)
Definition loginError (r1 r2 r3 r4 : Reply) : option string :=
  match fetchError "Failed to create user: " r1 with
  | Some msg => Some msg
  | None =>
      match jsonError r2 with
      | Some msg => Some msg
      | None =>
          match fetchError "Failed to get WebSocket token: " r3 with
          | Some msg => Some msg
          | None => jsonError r4
          end
      end
  end.

Definition bodyOf (r : Reply) : Body :=
  match r with Settled _ body => body | Failed _ => ∅ end.

Close Scope proc_scope.

End App.

(** * Facts about the event loop *)

Lemma settle_last {Q R W} (ts : list (task Q R W)) (w : W) (q : Q)
    (k : R → proc Q R W unit) (r : R) :
  settle (length ts) r (Queue w (ts ++ [(q, k)])) = park ts (k r w).
Proof.
  unfold settle. cbn [tasks world].
  rewrite lookup_app_r by done. rewrite Nat.sub_diag. cbn.
  by rewrite delete_middle, app_nil_r.
Qed.

Lemma settle_beyond {Q R W} (ts : list (task Q R W)) (w : W) (i : nat) (r : R) :
  (length ts ≤ i)%nat → settle i r (Queue w ts) = Queue w ts.
Proof.
  intros Hi. unfold settle. cbn [tasks world].
  by rewrite lookup_ge_None_2.
Qed.

Lemma alter_last {A} (f : A → A) (l : list A) (x : A) :
  alter f (length l) (l ++ [x]) = l ++ [f x].
Proof.
  rewrite <- (Nat.add_0_r (length l)) at 1. by rewrite alter_app_r.
Qed.

(** * Facts about the call component *)

Section CallFacts.
Import Signaling.

Example ringing_state :
  callStatus (rendered ringing) = calling ∧
  offersSent (world ringing) = 1 ∧ tasks ringing = [].
Proof. by vm_compute. Qed.

Example inCall_state :
  callStatus (rendered inCall) = connected ∧
  peerConnectionRef (world inCall) = Some 0 ∧
  localStreamRef (world inCall) = Some 0 ∧ tasks inCall = [].
Proof. by vm_compute. Qed.

(** The opening guard of [handleRemoteSignal]: without a peer
    connection an [offer] changes nothing at all. *)
Lemma offer_without_connection (l : Loop) (accept : bool) (signal : Incoming) :
  in_type signal = Offer → peerConnectionRef (world l) = None →
  react l (RemoteSignal accept signal) = l.
Proof.
  intros Ht Hpc. destruct l as [w ts], signal as [ty d u]. cbn in Ht, Hpc.
  subst ty. unfold react, spawn, handleRemoteSignal, try_catch, bind, gets.
  cbn. by rewrite Hpc.
Qed.

(** C1.  An [offer] that reaches the idle component (no peer
    connection yet) is dropped by the opening guard of
    [handleRemoteSignal]: whatever the user would answer, no dialog is
    shown, nothing is signalled, no media is requested and the
    component is exactly as before.  The accept/reject flow of the
    claim is never entered. *)
Theorem offer_while_idle_is_dropped (accept : bool) (sdp : Blob) (from : UserId) :
  callStatus (rendered mounted) = idle ∧
  react mounted (RemoteSignal accept (anOffer sdp from)) = mounted.
Proof. split; [done|]. by apply offer_without_connection. Qed.

(** C2, as claimed, fails: in a connected call an incoming [offer]
    that the user declines puts a [call-rejected] signal on the wire,
    and one that the user accepts moves the status to [connecting]. *)
Lemma offer_while_connected_not_ignored :
  callStatus (rendered inCall) = connected ∧
  signals (world (react inCall (RemoteSignal false (anOffer "sdp" "u3")))) =
    signals (world inCall) ++
      [{| out_type := CallRejected; out_data := None; target_user := Some "u3" |}] ∧
  callStatus (rendered (react inCall (RemoteSignal true (anOffer "sdp" "u3")))) =
    connecting.
Proof. by vm_compute. Qed.

(** C2, amended.  An [offer] that arrives while a peer connection
    exists is put to the user.  Declined, it is answered with one
    [call-rejected] signal to [from_user] and the component's state,
    references, handles and pending operations stay as they were.
    Accepted, [answerCall] starts: the status becomes [connecting],
    the remote user becomes [from_user] and the microphone is
    requested; no signal is sent before that request is settled. *)
Theorem offer_with_connection_is_prompted
    (l : Loop) (pc : nat) (accept : bool) (signal : Incoming) :
  in_type signal = Offer →
  peerConnectionRef (world l) = Some pc →
  let l' := react l (RemoteSignal accept signal) in
  dialogs (world l') =
    dialogs (world l) ++
      [("Incoming call from user " ++ from_user signal ++ ". Accept?")%string] ∧
  if accept then
    rendered l' =
      with_remoteUserId (Some (from_user signal))
        (with_callStatus connecting (with_isConnecting true (rendered l))) ∧
    awaited l' = awaited l ++ [GetUserMedia] ∧
    signals (world l') = signals (world l)
  else
    signals (world l') =
      signals (world l) ++
        [{| out_type := CallRejected; out_data := None;
            target_user := Some (from_user signal) |}] ∧
    rendered l' = rendered l ∧ tasks l' = tasks l ∧
    peerConnectionRef (world l') = Some pc ∧
    localStreamRef (world l') = localStreamRef (world l) ∧
    captures (world l') = captures (world l) ∧
    connections (world l') = connections (world l).
Proof.
  intros Ht Hpc. destruct l as [w ts], signal as [ty d u]. simpl in *. subst ty.
  unfold react, spawn, handleRemoteSignal, try_catch, bind, gets, rendered. simpl.
  rewrite Hpc. destruct accept; simpl.
  - unfold awaited. simpl. rewrite fmap_app. done.
  - by rewrite Hpc.
Qed.

Lemma offer_with_connection_is_prompted_witness :
  signals (world (react inCall (RemoteSignal false (anOffer "sdp" "u3")))) =
    signals (world inCall) ++
      [{| out_type := CallRejected; out_data := None; target_user := Some "u3" |}].
Proof.
  exact (proj1 (proj2 (offer_with_connection_is_prompted inCall 0 false
    (anOffer "sdp" "u3") eq_refl eq_refl))).
Defined.

(** [call-rejected] resets two state cells and raises an alert; the
    references and every stream and connection stay as they are. *)
Lemma call_rejected_releases_nothing (l : Loop) (accept : bool) (signal : Incoming) :
  in_type signal = CallRejected →
  let l' := react l (RemoteSignal accept signal) in
  rendered l' = with_callStatus idle (with_isConnecting false (rendered l)) ∧
  tasks l' = tasks l ∧
  localStreamRef (world l') = localStreamRef (world l) ∧
  peerConnectionRef (world l') = peerConnectionRef (world l) ∧
  captures (world l') = captures (world l) ∧
  connections (world l') = connections (world l).
Proof.
  intros Ht. destruct l as [w ts], signal as [ty d u]. cbn in Ht. subst ty.
  unfold react, spawn, handleRemoteSignal, try_catch, bind, gets. cbn.
  by rewrite andb_false_r.
Qed.

(** C3.  Two ways back to [idle] keep both handles.  When [startCall]
    fails after the peer connection was made, and when the peer's
    [call-rejected] arrives while the call is ringing, the status is
    [idle] again while [localStreamRef] and [peerConnectionRef] still
    hold the capture stream and the connection, the stream's track
    was never stopped and the connection never closed, and nothing is
    pending that would do it. *)
Theorem failed_and_rejected_calls_keep_handles (accept : bool) :
  (callStatus (rendered offerFailed) = idle ∧
   isConnecting (rendered offerFailed) = false ∧
   tasks offerFailed = [] ∧
   localStreamRef (world offerFailed) = Some 0 ∧
   captureStops (world offerFailed) 0 = 0 ∧
   peerConnectionRef (world offerFailed) = Some 0 ∧
   connectionCloses (world offerFailed) 0 = 0) ∧
  (let l := react ringing (RemoteSignal accept (callRejected "u2")) in
   callStatus (rendered ringing) = calling ∧
   callStatus (rendered l) = idle ∧
   isConnecting (rendered l) = false ∧
   tasks l = [] ∧
   localStreamRef (world l) = Some 0 ∧
   captureStops (world l) 0 = 0 ∧
   peerConnectionRef (world l) = Some 0 ∧
   connectionCloses (world l) 0 = 0).
Proof. by vm_compute. Qed.

(** What [handleEndCall] leaves behind, field by field. *)
Lemma handleEndCall_world (rs : CallState) (w : World) :
  ∃ w', handleEndCall rs w = Done w' tt ∧
    state w' = {| isInCall := false; isConnecting := false; isMuted := false;
                  callStatus := idle; remoteUserId := None |} ∧
    localStreamRef w' = None ∧ remoteStreamRef w' = None ∧
    peerConnectionRef w' = None ∧
    captures w' = from_option (λ h, alter stopTracks h (captures w))
                    (captures w) (localStreamRef w) ∧
    connections w' = from_option (λ pc, alter close pc (connections w))
                       (connections w) (peerConnectionRef w) ∧
    signals w' = signals w ++
      (if isInCall rs && truthy (remoteUserId rs)
       then [{| out_type := CallEnded; out_data := None;
                target_user := remoteUserId rs |}]
       else []).
Proof.
  destruct w as [st ls rms pcr la ra cs rs' co sg al dg ch].
  unfold handleEndCall, bind, gets. simpl.
  destruct ls, rms, pcr; simpl;
    destruct (isInCall rs && truthy (remoteUserId rs)); simpl;
    (eexists; split; [reflexivity|]); simpl;
    rewrite ?app_nil_r; by repeat split.
Qed.

Lemma call_ended_runs_handleEndCall (l : Loop) (accept : bool) (signal : Incoming) :
  in_type signal = CallEnded →
  react l (RemoteSignal accept signal) =
    park (tasks l) (handleEndCall (rendered l) (world l)).
Proof.
  intros Ht. destruct signal as [ty d u]; simpl in Ht; subst ty.
  unfold react, spawn, handleRemoteSignal, try_catch, bind, gets. simpl.
  rewrite andb_false_r. simpl.
  destruct (handleEndCall_world (rendered l) (world l)) as (w' & -> & _).
  reflexivity.
Qed.

(** What a [call-ended] signal does in the turn that handles it: in
    every state it leaves the component idle with every Call Session
    field reset and the three references cleared.  The capture stream
    and the peer connection that the references held at that moment
    are released once (track stopped, connection closed), every other
    object is left alone, and a further [call-ended] releases nothing
    again.  A call that is suspended at that moment stays so. *)
Theorem call_ended_tears_down (l : Loop) (accept : bool) (signal : Incoming) :
  in_type signal = CallEnded →
  let l' := react l (RemoteSignal accept signal) in
  tasks l' = tasks l ∧
  rendered l' = {| isInCall := false; isConnecting := false; isMuted := false;
                   callStatus := idle; remoteUserId := None |} ∧
  localStreamRef (world l') = None ∧ remoteStreamRef (world l') = None ∧
  peerConnectionRef (world l') = None ∧
  (∀ h, captureStops (world l') h =
        captureStops (world l) h +
        (if bool_decide (localStreamRef (world l) = Some h ∧
                         h < length (captures (world l)))
         then 1 else 0)) ∧
  (∀ pc, connectionCloses (world l') pc =
         connectionCloses (world l) pc +
         (if bool_decide (peerConnectionRef (world l) = Some pc ∧
                          pc < length (connections (world l)))
          then 1 else 0)) ∧
  (∀ accept' signal', in_type signal' = CallEnded →
     let l'' := react l' (RemoteSignal accept' signal') in
     captures (world l'') = captures (world l') ∧
     connections (world l'') = connections (world l')).
Proof.
  intros Ht l'. subst l'. rewrite (call_ended_runs_handleEndCall _ _ _ Ht).
  destruct (handleEndCall_world (rendered l) (world l))
    as (w' & -> & Hst & Hls & Hrs & Hpc & Hcap & Hcon & _).
  change (park (tasks l) (Done w' ())) with (Queue w' (tasks l)).
  unfold rendered. cbn [world tasks].
  split_and!; try done.
  - intros h. unfold captureStops. rewrite Hcap.
    case_bool_decide as Hd.
    + destruct Hd as [-> Hlt]. simpl. rewrite list_lookup_alter_eq.
      destruct (lookup_lt_is_Some_2 _ _ Hlt) as [m ->]. simpl. lia.
    + destruct (localStreamRef (world l)) as [h0|]; simpl; [|lia].
      destruct (decide (h0 = h)) as [->|Hne].
      * rewrite list_lookup_alter_eq.
        destruct (captures (world l) !! h) as [m|] eqn:E; simpl; [|lia].
        apply lookup_lt_Some in E. by destruct Hd.
      * rewrite list_lookup_alter_ne by done. lia.
  - intros pc. unfold connectionCloses. rewrite Hcon.
    case_bool_decide as Hd.
    + destruct Hd as [-> Hlt]. simpl. rewrite list_lookup_alter_eq.
      destruct (lookup_lt_is_Some_2 _ _ Hlt) as [m ->]. simpl. lia.
    + destruct (peerConnectionRef (world l)) as [p0|]; simpl; [|lia].
      destruct (decide (p0 = pc)) as [->|Hne].
      * rewrite list_lookup_alter_eq.
        destruct (connections (world l) !! pc) as [m|] eqn:E; simpl; [|lia].
        apply lookup_lt_Some in E. by destruct Hd.
      * rewrite list_lookup_alter_ne by done. lia.
  - intros accept' signal' Ht'.
    rewrite (call_ended_runs_handleEndCall _ _ _ Ht').
    destruct (handleEndCall_world (rendered (Queue w' (tasks l))) w')
      as (w'' & E & _ & _ & _ & _ & Hcap' & Hcon' & _).
    simpl in E. simpl. rewrite E. simpl.
    by rewrite Hcap', Hcon', Hls, Hpc.
Qed.

Lemma call_ended_tears_down_witness :
  callStatus (rendered (react inCall (RemoteSignal false (callEnded "u2")))) = idle ∧
  captureStops (world (react inCall (RemoteSignal false (callEnded "u2")))) 0 = 1 ∧
  connectionCloses (world (react inCall (RemoteSignal false (callEnded "u2")))) 0 = 1.
Proof.
  pose proof (call_ended_tears_down inCall false (callEnded "u2") eq_refl)
    as (_ & Hst & _ & _ & _ & Hcap & Hcon & _).
  split; [by rewrite Hst|]. split; [exact (Hcap 0)|exact (Hcon 0)].
Defined.

(** The two parts of [startCall]: up to the request for the
    microphone, and, resumed in whatever world the component is in by
    then, through the three browser operations when they succeed. *)
Lemma startCall_segments (rs : CallState) (target : option UserId) (w : World) :
  ∃ k,
    startCall rs target w =
      Paused
        (set_state
           (with_remoteUserId target
              (with_callStatus calling (with_isConnecting true (state w)))) w)
        GetUserMedia k ∧
    ∀ (w' : World) (ts : list (task Request Reply World)) (offer : Blob),
      run (Queue w' (ts ++ [(GetUserMedia, k)]))
        [Settle (length ts) fulfilled; Settle (length ts) (Resolved offer);
         Settle (length ts) fulfilled] =
      Queue
        (set_signals
           (signals w' ++
              [{| out_type := Offer; out_data := Some offer;
                  target_user := target |}])
        (set_connections
           (connections w' ++
              [{| closes := 0; senders := [length (captures w')];
                  localDescription := Some offer; remoteDescription := None;
                  candidates := []; iceRestarts := 0; closure := rs |}])
        (set_peerConnectionRef (Some (length (connections w')))
        (set_localAudioSrc (Some (length (captures w')))
        (set_localStreamRef (Some (length (captures w')))
        (set_captures (captures w' ++ [{| stops := 0; enabled := true |}])
           w'))))))
        ts.
Proof.
  eexists. split; [reflexivity|]. intros w' ts offer.
  unfold run. cbn [foldl]. unfold react.
  rewrite (settle_last ts). cbn -[settle].
  rewrite (settle_last ts). cbn -[settle].
  rewrite (settle_last ts). cbn.
  rewrite !alter_last. by destruct w'.
Qed.

(** C4.  A [call-ended] signal that arrives while [startCall] waits
    for the microphone resets the state but leaves [startCall]
    suspended.  When the microphone is then granted, [startCall]
    goes on in the idle component: it captures a stream, makes a peer
    connection and sends the offer.  The component ends up idle,
    showing [Start Call] and no [End Call], holding a stream that was
    never stopped and a connection that was never closed. *)
Theorem call_ended_before_media_leaks_the_call
    (l : Loop) (accept : bool) (signal : Incoming) (offer : Blob) :
  startRendered (rendered l) = true →
  in_type signal = CallEnded →
  let n := length (tasks l) in
  let stream := length (captures (world l)) in
  let pc := length (connections (world l)) in
  let l1 := run l [ClickStart; RemoteSignal accept signal] in
  let l2 := run l1 [Settle n fulfilled; Settle n (Resolved offer);
                    Settle n fulfilled] in
  (callStatus (rendered l1) = idle ∧
   localStreamRef (world l1) = None ∧
   peerConnectionRef (world l1) = None ∧
   awaited l1 = awaited l ++ [GetUserMedia]) ∧
  rendered l2 =
    {| isInCall := false; isConnecting := false; isMuted := false;
       callStatus := idle; remoteUserId := None |} ∧
  tasks l2 = tasks l ∧
  localStreamRef (world l2) = Some stream ∧
  peerConnectionRef (world l2) = Some pc ∧
  captures (world l2) !! stream = Some {| stops := 0; enabled := true |} ∧
  connections (world l2) !! pc =
    Some {| closes := 0; senders := [stream];
            localDescription := Some offer; remoteDescription := None;
            candidates := []; iceRestarts := 0; closure := rendered l |} ∧
  signals (world l2) =
    signals (world l) ++
      [{| out_type := Offer; out_data := Some offer; target_user := None |}] ∧
  startRendered (rendered l2) = true ∧
  react l2 ClickEnd = l2.
Proof.
  intros Hs Ht n stream pc l1 l2. subst n stream pc l1 l2.
  destruct l as [w ts]. unfold rendered in *. cbn [world tasks] in *.
  destruct (startCall_segments (state w) None w) as (k & Hk & Hres).
  set (w1 := set_state _ w) in Hk.
  destruct (handleEndCall_world (state w1) w1)
    as (w' & E & Hst & Hls & _ & Hpc & Hcap & Hcon & Hsig).
  assert (E1 : run (Queue w ts) [ClickStart; RemoteSignal accept signal] =
               Queue w' (ts ++ [(GetUserMedia, k)])).
  { unfold run. cbn [foldl]. unfold react at 2. unfold rendered.
    cbn [world]. rewrite Hs. unfold spawn. cbn [world tasks]. rewrite Hk.
    cbn [park]. rewrite (call_ended_runs_handleEndCall _ _ _ Ht).
    unfold rendered. cbn [world tasks]. by rewrite E. }
  rewrite E1, Hres. unfold awaited. cbn [world tasks].
  assert (Hin : isInCall (state w1) = false).
  { subst w1. cbn. apply andb_true_iff in Hs as [Hin _].
    by apply negb_true_iff in Hin. }
  rewrite Hin in Hsig. cbn in Hsig. rewrite app_nil_r in Hsig.
  assert (Hlc : length (captures w') = length (captures w)).
  { rewrite Hcap. subst w1. cbn.
    destruct (localStreamRef w); cbn; by rewrite ?length_alter. }
  assert (Hlp : length (connections w') = length (connections w)).
  { rewrite Hcon. subst w1. cbn.
    destruct (peerConnectionRef w); cbn; by rewrite ?length_alter. }
  cbn. rewrite Hst, Hls, Hpc, Hsig, Hlc, Hlp. cbn.
  split_and!; try done.
  - by rewrite fmap_app.
  - by rewrite lookup_app_r, Hlc, Nat.sub_diag by lia.
  - by rewrite lookup_app_r, Hlp, Nat.sub_diag by lia.
Qed.

Lemma call_ended_before_media_leaks_the_call_witness :
  let l2 :=
    run (run mounted [ClickStart; RemoteSignal false (callEnded "u2")])
      [Settle 0 fulfilled; Settle 0 (Resolved "offer-sdp");
       Settle 0 fulfilled] in
  rendered l2 =
    {| isInCall := false; isConnecting := false; isMuted := false;
       callStatus := idle; remoteUserId := None |} ∧
  localStreamRef (world l2) = Some 0 ∧
  peerConnectionRef (world l2) = Some 0 ∧
  captures (world l2) !! 0 = Some {| stops := 0; enabled := true |}.
Proof.
  pose proof (call_ended_before_media_leaks_the_call mounted false
    (callEnded "u2") "offer-sdp" eq_refl eq_refl)
    as (_ & Hst & _ & Hls & Hpc & Hcap & _).
  exact (conj Hst (conj Hls (conj Hpc Hcap))).
Defined.



End CallFacts.

(** * Facts about the chat component *)

Section ChatFacts.
Import Chat.

Example online_state :
  connectionStatus (rendered online) = connected ∧
  isOpen (ws (rendered online)) (world online) = true ∧
  timeouts (world online) = [] ∧ tasks online = [].
Proof. by vm_compute. Qed.

Lemma typingUpdater_NoDup (u : UserId) (b : bool) (reg : list UserId) :
  NoDup reg → NoDup (typingUpdater u b reg).
Proof.
  intros Hnd. unfold typingUpdater. destruct b.
  - case_bool_decide as Hin; simpl; [done|].
    apply NoDup_app. split_and!; [done| |apply NoDup_singleton].
    intros x Hx ->%list_elem_of_singleton. done.
  - by apply NoDup_filter.
Qed.

Lemma registry_remoteTyping (l : Loop) (e : UserId * bool) :
  registry (react l (remoteTyping e)) = typingUpdater e.1 e.2 (registry l).
Proof. reflexivity. Qed.

Lemma registry_NoDup (l : Loop) (events : list (UserId * bool)) :
  NoDup (registry l) → NoDup (registry (run l (remoteTyping <$> events))).
Proof.
  revert l. induction events as [|e events IH]; intros l Hnd; [done|].
  cbn [fmap list_fmap]. unfold run. cbn [foldl]. apply IH.
  rewrite registry_remoteTyping. by apply typingUpdater_NoDup.
Qed.

(** C10.  Whatever typing events the socket delivers to the mounted
    component, no user identifier is in the typing registry twice;
    and [is_typing = true] for an identifier that is already in the
    registry leaves the registry as it is. *)
Theorem typing_registry_has_no_duplicates
    (token : option string) (t0 : nat) (events : list (UserId * bool)) (u : UserId) :
  let l := run (mount token t0) (remoteTyping <$> events) in
  NoDup (registry l) ∧
  (u ∈ registry l → registry (react l (remoteTyping (u, true))) = registry l).
Proof.
  split.
  - apply registry_NoDup. unfold registry, mount, rendered. cbn.
    destruct (truthy token); apply NoDup_nil_2.
  - intros Hin. rewrite registry_remoteTyping. unfold typingUpdater. cbn.
    by rewrite bool_decide_eq_true_2.
Qed.

Lemma typing_registry_has_no_duplicates_witness :
  registry (run (mount None 0)
    (remoteTyping <$> [("u7", true); ("u8", true); ("u7", true)])) = ["u7"; "u8"].
Proof.
  etransitivity.
  - refine (proj2 (typing_registry_has_no_duplicates None 0
      [("u7", true); ("u8", true)] "u7") _).
    vm_compute. apply list_elem_of_here.
  - reflexivity.
Defined.

(** A typing-stop callback leaves the queue, the status and the token
    alone. *)
Lemma typingStop_frame (rs : ChatState) (w : World) :
  let w' := after (runJob (TypingStop rs) w) in
  timeouts w' = timeouts w ∧
  connectionStatus (state w') = connectionStatus (state w).
Proof.
  unfold runJob, sendTypingIndicator, sendIfOpen, bind, gets. cbn -[isOpen].
  destruct (ws rs) as [h|]; cbn -[isOpen]; [|done].
  by destruct (isOpen _ _).
Qed.

Lemma enqueue_last (t : Timer) (q : list Timer) :
  Forall (λ x, (due x ≤ due t)%nat) q → enqueue t q = q ++ [t].
Proof.
  induction 1 as [|x q Hx _ IH]; [done|]. cbn.
  by rewrite (proj2 (Nat.leb_le _ _) Hx), IH.
Qed.

(** Time passing over a queue of typing-stop callbacks that ends with
    the callback of [onclose]: the status is untouched before that
    last callback is due and [reconnecting] from then on. *)
Lemma fireDue_reconnecting (q : list Timer) (r : Timer) (token : option string)
    (fuel t : nat) (w : World) :
  Forall (λ x, isTypingStop (job x) = true ∧ (due x ≤ due r)%nat) q →
  job r = MarkReconnecting token → truthy token = true →
  timeouts w = q ++ [r] → (length q < fuel)%nat →
  connectionStatus (state (fireDue fuel t w)) =
    if Nat.leb (due r) t then reconnecting else connectionStatus (state w).
Proof.
  intros Hq Hr Htok. revert fuel w.
  induction Hq as [|x q [Hx Hdue] _ IH]; intros fuel w Htm Hfuel.
  - destruct fuel as [|fuel]; [cbn in Hfuel; lia|].
    cbn [fireDue]. rewrite Htm. cbn [app].
    destruct (Nat.leb (due r) t); [|done].
    rewrite Hr. cbn -[truthy]. rewrite Htok. by destruct fuel.
  - destruct fuel as [|fuel]; [cbn in Hfuel; lia|].
    cbn [fireDue]. rewrite Htm. cbn [app].
    destruct (Nat.leb_spec (due x) t) as [Hle|Hgt].
    + destruct (job x) as [rs|] eqn:Hj; [|done].
      pose proof (typingStop_frame rs
        (set_now (Nat.max (now w) (due x)) (set_timeouts (q ++ [r]) w)))
        as [Htm' Hcs'].
      rewrite IH; [|done|cbn in Hfuel; lia].
      by rewrite Hcs'.
    + by rewrite (proj2 (Nat.leb_gt _ _)) by lia.
Qed.

(** The two segments of [sendMessage]: up to the [fetch], which
    leaves the world untouched, and from its settlement on. *)
Lemma sendMessage_segments (rs : ChatState) (content : string) (w : World) :
  nonEmpty (trim content) = true →
  ∃ k, sendMessage rs content w = Paused w (PostMessage content "user") k ∧
    ∀ r w', k r w' =
      Done (match failureReason r with
            | Some reason =>
                set_state (with_messages
                  (messages (state w') ++ [errorMessage (now w') reason])
                  (state w')) w'
            | None => after (sendIfOpen (ws rs) (chat_message content) w')
            end) tt.
Proof.
  intros Hc. unfold sendMessage. rewrite Hc. cbn -[ok show].
  eexists. split; [reflexivity|].
  intros [status|msg] w'; cbn -[ok show]; [|done].
  destruct (ok status); cbn -[show]; [|done].
  unfold sendIfOpen, bind, gets. cbn.
  destruct (ws rs) as [h|]; cbn; [|done].
  by destruct (bool_decide _).
Qed.

Lemma sentOn_send (h : nat) (f : Frame) (w : World) :
  isOpen (Some h) w = true →
  sentOn h (after (sendIfOpen (Some h) f w)) = sentOn h w ++ [f].
Proof.
  intros Ho. unfold sendIfOpen, bind, gets. cbn -[isOpen]. rewrite Ho. cbn.
  unfold sentOn. cbn. rewrite list_lookup_alter_eq.
  unfold isOpen in Ho. apply bool_decide_eq_true_1 in Ho.
  by destruct (sockets w !! h).
Qed.

(** C6, as claimed, fails: the persistence call answers 500 while the
    socket is open, and no [chat_message] frame is written. *)
Lemma failed_persistence_sends_no_frame :
  let l := run submitted [Settle 0 (Response 500)] in
  isOpen (ws (rendered l)) (world l) = true ∧
  (chat_message "hello" ∉ sentOn 0 (world l)) ∧
  timeline l = [errorMessage 0 "Failed to send message: 500"].
Proof.
  split_and!; [by vm_compute| |by vm_compute].
  vm_compute. intros H. repeat (inversion H as [|? ? ? H']; clear H; rename H' into H).
Qed.

(** C6, amended.  The transport send comes after the persistence call
    and only if it succeeded.  When the call fails, one message of
    sender [system] whose content is [Error: ] followed by the failure
    reason is appended and nothing is written to any socket; when it
    succeeds, the timeline is left alone and the [chat_message] frame
    is written to the render's socket, provided it is open. *)
Theorem transport_send_follows_persistence
    (l : Loop) (content : string) (r : Reply) (h : nat) :
  nonEmpty (trim content) = true →
  ws (rendered l) = Some h →
  isOpen (Some h) (world l) = true →
  let l' := settle (length (tasks l)) r
              (spawn (sendMessage (rendered l) content) l) in
  tasks l' = tasks l ∧
  match failureReason r with
  | Some reason =>
      timeline l' =
        timeline l ++
          [{| id := now (world l); content := "Error: " ++ reason;
              sender := "system"; timestamp := now (world l) |}] ∧
      sockets (world l') = sockets (world l)
  | None =>
      timeline l' = timeline l ∧
      sentOn h (world l') = sentOn h (world l) ++ [chat_message content]
  end.
Proof.
  intros Hc Hws Ho l'. subst l'. destruct l as [w ts].
  unfold spawn, rendered, timeline in *. cbn [world tasks] in *.
  destruct (sendMessage_segments (state w) content w Hc) as (k & -> & Hk).
  cbn [park]. rewrite (settle_last ts), Hk. cbn [park tasks world].
  split; [done|]. destruct (failureReason r) as [reason|]; [done|].
  rewrite Hws. split; [|by apply sentOn_send].
  unfold sendIfOpen, bind, gets. cbn -[isOpen]. by rewrite Ho.
Qed.

Lemma transport_send_follows_persistence_witness :
  sockets (world (settle 0 (Response 500)
    (spawn (sendMessage (rendered online) "hello") online))) =
  sockets (world online).
Proof.
  exact (proj2 (proj2 (transport_send_follows_persistence online "hello"
    (Response 500) 0 eq_refl eq_refl eq_refl))).
Defined.

(** C7, as claimed, fails: after [hello] is submitted, with the
    persistence call still pending, the timeline is empty. *)
Lemma submitted_message_not_in_timeline :
  awaited submitted = [PostMessage "hello" "user"] ∧
  timeline submitted = [] ∧
  ¬ ∃ m, m ∈ timeline submitted ∧ content m = "hello".
Proof.
  split_and!; [by vm_compute..|].
  intros (m & Hm & _). vm_compute in Hm. inversion Hm.
Qed.

(** C7, amended.  [sendMessage] appends nothing for the message it
    sends: while the persistence call is pending the component is as
    it was before.  When the call is settled, the timeline has grown
    by one [system] message if it failed and not at all if it
    succeeded; nothing is ever removed.  The message itself enters
    the timeline when the socket delivers it as a [chat_message]. *)
Theorem submit_appends_nothing (l : Loop) (content : string) (r : Reply) (m : Message) :
  nonEmpty (trim content) = true →
  let l1 := spawn (sendMessage (rendered l) content) l in
  let l2 := settle (length (tasks l)) r l1 in
  world l1 = world l ∧
  awaited l1 = awaited l ++ [PostMessage content "user"] ∧
  (∃ extra, timeline l2 = timeline l ++ extra ∧
     length extra = (if failureReason r is Some _ then 1 else 0) ∧
     Forall (λ x, sender x = "system") extra) ∧
  timeline (react l1 (SocketMessage (Some (in_chat_message m)))) =
    timeline l ++ [m].
Proof.
  intros Hc l1 l2. subst l1 l2. destruct l as [w ts].
  unfold spawn, rendered, timeline in *. cbn [world tasks] in *.
  destruct (sendMessage_segments (state w) content w Hc) as (k & -> & Hk).
  cbn [park]. rewrite (settle_last ts), Hk. cbn [park tasks world].
  split_and!; [done|by unfold awaited; cbn; rewrite fmap_app| |done].
  destruct (failureReason r) as [reason|].
  - eexists [_]. split_and!; [done..|]. by repeat constructor.
  - exists []. rewrite app_nil_r. split_and!; [|done..].
    unfold sendIfOpen, bind, gets. cbn -[isOpen].
    destruct (ws (state w)); [|done]. by destruct (isOpen _ _).
Qed.

Lemma submit_appends_nothing_witness :
  world (spawn (sendMessage (rendered online) "hello") online) = world online.
Proof.
  exact (proj1 (submit_appends_nothing online "hello" (Response 500)
    (errorMessage 0 "x") eq_refl)).
Defined.

Lemma readyStates_send (h : nat) (f : Frame) (so : list Socket) :
  readyState <$>
    alter (λ s, {| readyState := readyState s; sent := sent s ++ [f] |}) h so =
  readyState <$> so.
Proof.
  revert h. induction so as [|x so IH]; intros [|h]; cbn; [done..|].
  by rewrite IH.
Qed.

Lemma sendIfOpen_calm (ws : option nat) (f : Frame) (w : World) :
  ∃ w', sendIfOpen ws f w = Done w' () ∧
    connectionStatus (state w') = connectionStatus (state w) ∧
    readyStates w' = readyStates w ∧
    wsToken w' = wsToken w.
Proof.
  destruct w as [st ref so tm sq nw fw tok].
  unfold sendIfOpen, bind, gets, readyStates. cbn -[isOpen].
  destruct ws as [h|]; [|by eexists].
  destruct (isOpen _ _); cbn; eexists; (split; [reflexivity|]); cbn;
    by rewrite ?readyStates_send.
Qed.

Lemma sendMessage_calm (rs : ChatState) (content : string) (w : World) :
  sendMessage rs content w = Done w () ∨
  ∃ q k, sendMessage rs content w = Paused w q k ∧ calm k.
Proof.
  destruct (nonEmpty (trim content)) eqn:Hc.
  - right.
    destruct (sendMessage_segments rs content w Hc) as (k & Hk & Hres).
    exists (PostMessage content "user"), k. split; [done|].
    intros r w'. rewrite Hres. eexists. split; [done|].
    destruct (failureReason r); [by destruct w'|].
    by destruct (sendIfOpen_calm (ws rs) (chat_message content) w')
      as (w'' & -> & ? & ? & ?).
  - left. unfold sendMessage. by rewrite Hc.
Qed.

Lemma spawn_done (p : Proc unit) (l : Loop) (w' : World) :
  p (world l) = Done w' () → spawn p l = Queue w' (tasks l).
Proof. unfold spawn. by intros ->. Qed.

(** A [setTimeout] callback leaves the sockets' states and the token
    alone, and the status too unless it sets it to [reconnecting]. *)
Lemma runJob_calm (j : Job) (w : World) :
  let w' := after (runJob j w) in
  readyStates w' = readyStates w ∧ wsToken w' = wsToken w ∧
  (connectionStatus (state w') = connectionStatus (state w) ∨
   connectionStatus (state w') = reconnecting).
Proof.
  destruct j as [rs|token]; cbn -[truthy sendTypingIndicator].
  - unfold sendTypingIndicator.
    destruct (sendIfOpen_calm (ws rs) (typing false)
      (set_state (with_isTyping false (state w)) w)) as (w' & -> & ? & ? & ?).
    cbn. destruct w. split_and!; [done..|by left].
  - destruct (truthy token); cbn; destruct w; split_and!;
      [done|done|by right|done|done|by left].
Qed.

Lemma fireDue_calm (fuel t : nat) (w : World) :
  let w' := fireDue fuel t w in
  readyStates w' = readyStates w ∧ wsToken w' = wsToken w ∧
  (connectionStatus (state w') = connectionStatus (state w) ∨
   connectionStatus (state w') = reconnecting).
Proof.
  revert w. induction fuel as [|fuel IH]; intros w; [by split_and!; try left|].
  cbn [fireDue]. destruct (timeouts w) as [|x q]; [by split_and!; try left|].
  destruct (Nat.leb (due x) t); [|by split_and!; try left].
  set (w0 := set_now _ _).
  destruct (runJob_calm (job x) w0) as (Hr & Ht & Hs).
  destruct (IH (after (runJob (job x) w0))) as (Hr' & Ht' & Hs').
  cbv zeta in *. rewrite Hr', Ht', Hr, Ht.
  split_and!; [by destruct w|by destruct w|].
  destruct Hs' as [Hs'|Hs']; [|by right]. rewrite Hs'.
  destruct Hs as [Hs|Hs]; [|by right]. left. rewrite Hs. by destruct w.
Qed.

Lemma elapse_calm (dt : nat) (w : World) :
  readyStates (elapse dt w) = readyStates w ∧
  wsToken (elapse dt w) = wsToken w ∧
  (connectionStatus (state (elapse dt w)) = connectionStatus (state w) ∨
   connectionStatus (state (elapse dt w)) = reconnecting).
Proof.
  unfold elapse.
  destruct (fireDue_calm (length (timeouts w)) (now w + dt) w)
    as (Hr & Ht & Hs).
  cbv zeta in *. by destruct (fireDue _ _ _).
Qed.

Lemma keystroke_token (value : string) (w : World) :
  wsToken (keystroke value w) = wsToken w.
Proof.
  destruct w as [[s ms nm cs ty tu vc] ref so tm sq nw fw tok].
  unfold keystroke, handleTyping, sendTypingIndicator, sendIfOpen, bind, gets.
  cbn -[isOpen].
  destruct ty; cbn -[isOpen]; [by destruct ref|].
  destruct s as [h|]; cbn -[isOpen]; [|by destruct ref].
  destruct (isOpen _ _); cbn; by destruct ref.
Qed.

(** In every step the pending requests stay calm and the token is the
    one the component was mounted with. *)
Lemma react_calm (l : Loop) (e : Event) :
  Forall (λ qk, calm qk.2) (tasks l) →
  Forall (λ qk, calm qk.2) (tasks (react l e)) ∧
  wsToken (world (react l e)) = wsToken (world l).
Proof.
  intros Hts.
  destruct e as [v| |dt|h|d|h|h|i r|s]; cbn [react].
  - destruct (inputEnabled (rendered l)); [|done].
    split; [done|]. apply keystroke_token.
  - destruct (inputEnabled (rendered l)); [|done].
    unfold handleSubmit. destruct (nonEmpty _); [|done].
    set (l1 := spawn (sendMessage (rendered l) (newMessage (rendered l))) l).
    set (l2 := spawn (setNewMessage EmptyString) l1).
    destruct (sendIfOpen_calm (ws (rendered l)) (typing false) (world l2))
      as (w3 & Hw3 & _ & _ & Htok3).
    rewrite (spawn_done (sendTypingIndicator (rendered l) false) l2 w3 Hw3).
    cbn [world tasks]. rewrite Htok3. subst l2.
    rewrite (spawn_done (setNewMessage EmptyString) l1 _ eq_refl).
    cbn [world tasks set_state wsToken]. subst l1. unfold spawn.
    destruct (sendMessage_calm (rendered l) (newMessage (rendered l))
      (world l)) as [->|(q & k & -> & Hk)]; cbn; [done|].
    split; [|done]. apply Forall_app. split; [done|]. by constructor.
  - split; [done|]. apply elapse_calm.
  - split; [done|]. by destruct l as [[]].
  - split; [by destruct d as [[]|]|]. destruct l as [[]].
    by destruct d as [[]|].
  - split; [done|]. by destruct l as [[]].
  - split; [done|]. by destruct l as [[]].
  - unfold settle.
    destruct ((tasks l : list (Request * (Reply → Proc unit))) !! i)
      as [[q k]|] eqn:Hi; [|done].
    pose proof (Forall_lookup_1 _ _ _ _ Hts Hi) as Hk. cbn in Hk.
    destruct (Hk r (world l)) as (w' & -> & _ & _ & Htok). cbn.
    split; [by apply Forall_delete|done].
  - unfold spawn, handleSignal.
    by destruct (sendIfOpen_calm (ws (rendered l)) (webrtc_signal s) (world l))
      as (w' & -> & _ & _ & ?).
Qed.

Lemma run_calm (l : Loop) (es : list Event) :
  Forall (λ qk, calm qk.2) (tasks l) →
  Forall (λ qk, calm qk.2) (tasks (run l es)) ∧
  wsToken (world (run l es)) = wsToken (world l).
Proof.
  revert l. induction es as [|e es IH]; intros l Hl; [done|].
  unfold run. cbn [foldl].
  destruct (react_calm l e Hl) as [Hl' Htok].
  destruct (IH (react l e) Hl') as [? Htok']. split; [done|].
  unfold run in Htok'. by rewrite Htok'.
Qed.

(** Once the status is [reconnecting], nothing but a socket event
    changes it, and nothing creates a socket or changes the state of
    one. *)
Lemma react_stuck (l : Loop) (e : Event) :
  needsNoSocket e = true →
  connectionStatus (rendered l) = reconnecting →
  Forall (λ qk, calm qk.2) (tasks l) →
  connectionStatus (rendered (react l e)) = reconnecting ∧
  readyStates (world (react l e)) = readyStates (world l) ∧
  Forall (λ qk, calm qk.2) (tasks (react l e)).
Proof.
  intros He Hst Hts.
  pose proof (react_calm l e Hts) as [Hts' _]. split_and!; [| |done].
  - destruct e as [v| |dt|h|d|h|h|i r|s]; try discriminate He; cbn [react].
    + unfold inputEnabled. by rewrite Hst.
    + unfold inputEnabled. by rewrite Hst.
    + unfold sync, rendered in *. cbn [world].
      destruct (elapse_calm dt (world l)) as (_ & _ & [Hs|Hs]); by rewrite Hs.
    + unfold settle.
      destruct ((tasks l : list (Request * (Reply → Proc unit))) !! i)
        as [[q k]|] eqn:Hi; [|done].
      pose proof (Forall_lookup_1 _ _ _ _ Hts Hi) as Hk. cbn in Hk.
      destruct (Hk r (world l)) as (w' & -> & Hs & _). unfold rendered in *.
      cbn. by rewrite Hs.
    + unfold spawn, handleSignal, rendered in *.
      destruct (sendIfOpen_calm (ws (state (world l))) (webrtc_signal s)
        (world l)) as (w' & -> & Hs & _). cbn. by rewrite Hs.
  - destruct e as [v| |dt|h|d|h|h|i r|s]; try discriminate He; cbn [react].
    + unfold inputEnabled. by rewrite Hst.
    + unfold inputEnabled. by rewrite Hst.
    + apply elapse_calm.
    + unfold settle.
      destruct ((tasks l : list (Request * (Reply → Proc unit))) !! i)
        as [[q k]|] eqn:Hi; [|done].
      pose proof (Forall_lookup_1 _ _ _ _ Hts Hi) as Hk. cbn in Hk.
      by destruct (Hk r (world l)) as (w' & -> & _ & Hr & _).
    + unfold spawn, handleSignal.
      by destruct (sendIfOpen_calm (ws (rendered l)) (webrtc_signal s)
        (world l)) as (w' & -> & _ & Hr & _).
Qed.

Lemma run_stuck (l : Loop) (es : list Event) :
  Forall (λ e, needsNoSocket e = true) es →
  connectionStatus (rendered l) = reconnecting →
  Forall (λ qk, calm qk.2) (tasks l) →
  connectionStatus (rendered (run l es)) = reconnecting ∧
  readyStates (world (run l es)) = readyStates (world l).
Proof.
  intros Hes. revert l. induction Hes as [|e es He _ IH]; intros l Hst Hts;
    [done|].
  unfold run. cbn [foldl].
  destruct (react_stuck l e He Hst Hts) as (Hst' & Hr & Hts').
  destruct (IH (react l e) Hst' Hts') as [? Hr']. split; [done|].
  unfold run in Hr'. by rewrite Hr', Hr.
Qed.

(** When the socket closes while at most typing-stop callbacks are
    pending, the status becomes [disconnected] and one callback is
    queued behind them, due 3000 ms later.  Until it is due the
    status stays [disconnected]; from then on, a token being present,
    it is [reconnecting]. *)
Lemma close_then_wait (w : World) (h d : nat) :
  Forall (λ x, isTypingStop (job x) = true ∧ (due x ≤ now w + 3000)%nat)
    (timeouts w) →
  truthy (wsToken w) = true →
  let w1 := after (onclose h w) in
  connectionStatus (state w1) = disconnected ∧
  timeouts w1 =
    timeouts w ++
      [{| tid := S (timerSeq w); due := now w + 3000;
          job := MarkReconnecting (wsToken w) |}] ∧
  connectionStatus (state (elapse d w1)) =
    (if Nat.ltb d 3000 then disconnected else reconnecting).
Proof.
  intros Hq Htok w1.
  assert (Htm : timeouts w1 =
    timeouts w ++ [{| tid := S (timerSeq w); due := now w + 3000;
                      job := MarkReconnecting (wsToken w) |}]).
  { subst w1. destruct w as [st ref so tm sq nw fw tok]. cbn in *.
    apply enqueue_last. cbn. eapply Forall_impl; [exact Hq|]. by intros ? [_ ?]. }
  assert (Hnow : now w1 = now w) by (by destruct w).
  assert (Hst : connectionStatus (state w1) = disconnected) by (by destruct w).
  split_and!; [done|done|].
  unfold elapse. cbn [state set_now].
  rewrite (fireDue_reconnecting (timeouts w)
    {| tid := S (timerSeq w); due := now w + 3000;
       job := MarkReconnecting (wsToken w) |}
    (wsToken w) _ _ w1 Hq eq_refl Htok Htm)
    by (rewrite Htm, length_app; cbn; lia).
  rewrite Hnow, Hst. cbn [due].
  destruct (Nat.ltb_spec d 3000) as [Hlt|Hge].
  - by rewrite (proj2 (Nat.leb_gt _ _)) by lia.
  - by rewrite (proj2 (Nat.leb_le _ _)) by lia.
Qed.

(** C8.  The socket of a component mounted with a token closes, by
    itself or after a network error, while at most typing-stop
    callbacks are pending.  The status becomes [disconnected] and a
    callback is set for 3000 ms later; when it runs the status
    becomes [reconnecting].  That is all the callback does: no socket
    is created, the closed one stays closed, and whatever the user,
    the clock, the pending requests and the call component do next,
    the status stays [reconnecting] and the input disabled. *)
Theorem reconnection_is_never_attempted
    (token : option string) (t0 : nat) (before : list Event)
    (h d : nat) (es : list Event) :
  let l := run (mount token t0) before in
  truthy token = true →
  Forall (λ x, isTypingStop (job x) = true ∧
               (due x ≤ now (world l) + 3000)%nat) (timeouts (world l)) →
  (3000 ≤ d)%nat →
  Forall (λ e, needsNoSocket e = true) es →
  let closed := react l (SocketClose h) in
  let l' := run closed (Elapse d :: es) in
  run l [SocketError h; SocketClose h] = closed ∧
  connectionStatus (rendered closed) = disconnected ∧
  timeouts (world closed) =
    timeouts (world l) ++
      [{| tid := S (timerSeq (world l)); due := now (world l) + 3000;
          job := MarkReconnecting token |}] ∧
  connectionStatus (rendered l') = reconnecting ∧
  inputEnabled (rendered l') = false ∧
  readyStates (world l') = readyStates (world closed).
Proof.
  intros l Htok Hq Hd Hes closed l'.
  destruct (run_calm (mount token t0) before) as [Hts Ht]; [by constructor|].
  fold l in Hts, Ht.
  assert (Htoken : wsToken (world l) = token) by (by rewrite Ht).
  rewrite <- Htoken in Htok.
  destruct (close_then_wait (world l) h d Hq Htok) as (Hst & Htm & Hw).
  rewrite (proj2 (Nat.ltb_ge _ _)) in Hw by done.
  assert (Hclosed : closed = Queue (after (onclose h (world l))) (tasks l)).
  { subst closed. unfold react, spawn. by destruct l as [[]]. }
  assert (Hstuck : connectionStatus (rendered l') = reconnecting ∧
                   readyStates (world l') = readyStates (world closed)).
  { subst l'. unfold run. cbn [foldl]. fold (run (react closed (Elapse d)) es).
    destruct (run_stuck (react closed (Elapse d)) es Hes) as [Hs Hr].
    - rewrite Hclosed. exact Hw.
    - rewrite Hclosed. exact Hts.
    - split; [done|]. rewrite Hr. rewrite Hclosed. cbn [react sync world].
      apply elapse_calm. }
  destruct Hstuck as [Hs Hr].
  split_and!; [| | |done| |done].
  - subst closed. unfold run. cbn [foldl]. unfold react, spawn.
    by destruct l as [[]].
  - rewrite Hclosed. exact Hst.
  - rewrite Hclosed. cbn [world]. by rewrite Htm, Htoken.
  - unfold inputEnabled. by rewrite Hs.
Qed.

Lemma reconnection_is_never_attempted_witness :
  connectionStatus (rendered
    (run (react (run (mount (Some "tok") 0) [SocketOpen 0]) (SocketClose 0))
       [Elapse 3000; Keystroke "x"; Elapse 5000; Submit])) = reconnecting.
Proof.
  refine (proj1 (proj2 (proj2 (proj2
    (reconnection_is_never_attempted (Some "tok") 0 [SocketOpen 0] 0 3000
       [Keystroke "x"; Elapse 5000; Submit] eq_refl _ _ _))))).
  - vm_compute. constructor.
  - vm_compute. repeat constructor.
  - repeat constructor.
Defined.

(** Goals about a socket after a frame was appended to it. *)
Ltac socket_frames so h Ho :=
  apply bool_decide_eq_true_1 in Ho;
  rewrite ?list_lookup_alter_eq;
  destruct (so !! h) as [[? ?]|]; cbn in *;
  [|discriminate];
  rewrite ?bool_decide_eq_true_2 by done;
  rewrite <- ?app_assoc; try done.

(** The one pending timer is the typing timer just set. *)
Ltac timer_set :=
  eexists _, _; split; [|split; reflexivity]; reflexivity.

Lemma first_keystroke (h : nat) (value : string) (w : World) :
  ws (state w) = Some h → isOpen (Some h) w = true →
  isTyping (state w) = false → timeouts w = [] →
  typingInFlight h (sentOn h w) (keystroke value w).
Proof.
  intros Hws Ho Hty Htm.
  destruct w as [[s ms nm cs ty tu vc] ref so tm sq nw fw tok].
  cbn in Hws, Ho, Hty, Htm. subst s ty tm.
  unfold keystroke, handleTyping, sendTypingIndicator, sendIfOpen,
    typingInFlight, sentOn.
  cbn. rewrite Ho. cbn.
  destruct ref; cbn; (split_and!; [done| |done| |timer_set]);
    socket_frames so h Ho.
Qed.

Lemma next_keystroke (h : nat) (base : list Frame) (gap : nat) (value : string) (w : World) :
  (gap < 1000)%nat →
  typingInFlight h base w →
  typingInFlight h base (keystroke value (elapse gap w)).
Proof.
  intros Hgap (Hws & Ho & Hty & Hsent & n & rs & Hrs & Htm & Href).
  destruct w as [[s ms nm cs ty tu vc] ref so tm sq nw fw tok].
  unfold sentOn in *.
  cbn in Hws, Ho, Hty, Hsent, Htm, Href. subst s ty tm ref.
  unfold keystroke, elapse, handleTyping, sendTypingIndicator, sendIfOpen,
    typingInFlight, sentOn.
  cbn -[Nat.leb]. rewrite (proj2 (Nat.leb_gt _ _)) by lia.
  cbn. rewrite decide_False by (intros ?; done). cbn.
  split_and!; [done..|timer_set].
Qed.

Lemma typing_stops (h : nat) (base : list Frame) (d : nat) (w : World) :
  (1000 ≤ d)%nat →
  typingInFlight h base w →
  sentOn h (elapse d w) = base ++ [typing true; typing false] ∧
  isTyping (state (elapse d w)) = false ∧ timeouts (elapse d w) = [].
Proof.
  intros Hd (Hws & Ho & Hty & Hsent & n & rs & Hrs & Htm & Href).
  destruct w as [[s ms nm cs ty tu vc] ref so tm sq nw fw tok].
  destruct rs as [s' ms' nm' cs' ty' tu' vc'].
  unfold sentOn in *.
  cbn in Hws, Ho, Hty, Hsent, Htm, Href, Hrs. subst s ty tm ref s'.
  unfold elapse, sendTypingIndicator, sendIfOpen.
  cbn -[Nat.leb]. rewrite (proj2 (Nat.leb_le _ _)) by lia.
  cbn. rewrite Ho. cbn. split_and!; [|done..].
  rewrite list_lookup_alter_eq. destruct (so !! h) as [[? ?]|]; cbn in *.
  - by rewrite Hsent, <- app_assoc.
  - by destruct base.
Qed.

Lemma typeBurst_in_flight (h : nat) (value : string) (more : list (nat * string)) (w : World) :
  ws (state w) = Some h → isOpen (Some h) w = true →
  isTyping (state w) = false → timeouts w = [] →
  Forall (λ g, (g.1 < 1000)%nat) more →
  typingInFlight h (sentOn h w) (typeBurst value more w).
Proof.
  intros Hws Ho Hty Htm Hgaps. unfold typeBurst.
  pose proof (first_keystroke h value w Hws Ho Hty Htm) as Hinv.
  revert Hinv. generalize (keystroke value w) as w1, (sentOn h w) as base.
  induction Hgaps as [|[gap v] more Hgap _ IH]; intros w1 base Hinv; [done|].
  cbn [foldl]. apply IH. by apply next_keystroke.
Qed.

(** C9.  With the socket open, the user not yet typing and no
    callback pending, a burst of keystrokes -- two or more, each less
    than 1000 ms after the one before -- writes one [typing true]
    frame in all, and when 1000 ms or more then pass without a
    keystroke, one [typing false] frame follows, and no other
    [typing] frame. *)
Theorem typing_envelopes_on_edges
    (w : World) (h : nat) (value : string) (more : list (nat * string)) (d : nat) :
  ws (state w) = Some h → isOpen (Some h) w = true →
  isTyping (state w) = false → timeouts w = [] →
  Forall (λ g, (g.1 < 1000)%nat) more → (1000 ≤ d)%nat →
  let typed := typeBurst value more w in
  typingSent h typed = typingSent h w ++ [typing true] ∧
  isTyping (state typed) = true ∧
  typingSent h (elapse d typed) =
    typingSent h w ++ [typing true; typing false] ∧
  isTyping (state (elapse d typed)) = false ∧
  timeouts (elapse d typed) = [].
Proof.
  intros Hws Ho Hty Htm Hgaps Hd typed.
  pose proof (typeBurst_in_flight h value more w Hws Ho Hty Htm Hgaps) as Hinv.
  fold typed in Hinv.
  destruct (typing_stops h _ d typed Hd Hinv) as (Hs2 & ? & ?).
  destruct Hinv as (_ & _ & ? & Hs1 & _).
  unfold typingSent. rewrite Hs1, Hs2, !filter_app. done.
Qed.

Lemma typing_envelopes_on_edges_witness :
  typingSent 0 (elapse 1000 (typeBurst "h" [(200, "he")] (world online))) =
    [typing true; typing false].
Proof.
  refine (proj1 (proj2 (proj2 (typing_envelopes_on_edges (world online) 0 "h"
    [(200, "he")] 1000 eq_refl eq_refl eq_refl eq_refl _ _)))).
  - repeat constructor.
  - vm_compute. repeat constructor.
Defined.


End ChatFacts.


(** * Further facts about the call component *)

Section CallMore.
Import Signaling.

(** X1.  [toggleMute] without a local stream changes nothing.  With
    one, it flips the [enabled] flag of the stream's audio track and
    sets [isMuted] to the opposite of the new flag; it touches no
    other stream, sends no signal and suspends nothing, and a second
    toggle puts the streams back as they were. *)
Theorem toggleMute_flips_the_track (l : Loop) :
  let l' := spawn toggleMute l in
  match localStreamRef (world l) with
  | None => l' = l
  | Some h =>
      ∀ s, captures (world l) !! h = Some s →
        captures (world l') = <[h := {| stops := stops s; enabled := negb (enabled s) |}]> (captures (world l)) ∧
        isMuted (rendered l') = enabled s ∧
        rendered l' = with_isMuted (enabled s) (rendered l) ∧
        signals (world l') = signals (world l) ∧
        tasks l' = tasks l ∧
        localStreamRef (world l') = Some h ∧
        captures (world (spawn toggleMute l')) = captures (world l) ∧
        isMuted (rendered (spawn toggleMute l')) = negb (enabled s)
  end.
Proof.
  destruct l as [[st ls rms pcr la ra cs rs' co sg al dg ch] ts].
  unfold spawn, toggleMute, bind, gets. cbn.
  destruct ls as [h|]; cbn; [|done].
  intros s Hs. rewrite Hs. cbn.
  rewrite list_lookup_insert_eq by (by eapply lookup_lt_Some). cbn.
  rewrite !negb_involutive. split_and!; try done.
  rewrite list_insert_insert_eq. destruct s. by apply list_insert_id.
Qed.

Lemma toggleMute_flips_the_track_witness :
  isMuted (rendered (spawn toggleMute inCall)) = true.
Proof.
  exact (proj1 (proj2 (toggleMute_flips_the_track inCall
    {| stops := 0; enabled := true |} eq_refl))).
Defined.

(** X2.  An [answer] without a peer connection is dropped.  With one,
    nothing changes until [setRemoteDescription] is settled; then the
    descriptor is on that connection if the operation succeeded and
    nowhere if it failed.  Either way the state cells, the signals
    sent and the alerts are as before: the failure is swallowed. *)
Theorem answer_only_sets_remote_description
    (l : Loop) (accept : bool) (signal : Incoming) (r : Reply) :
  in_type signal = Answer →
  let l1 := react l (RemoteSignal accept signal) in
  let l2 := settle (length (tasks l)) r l1 in
  match peerConnectionRef (world l) with
  | None => l1 = l
  | Some pc =>
      world l1 = world l ∧
      awaited l1 = awaited l ++ [SetRemoteDescription pc (in_data signal)] ∧
      tasks l2 = tasks l ∧
      rendered l2 = rendered l ∧
      signals (world l2) = signals (world l) ∧
      alerts (world l2) = alerts (world l) ∧
      connections (world l2) =
        if isResolved r
        then alter (pc_remoteDescription (Some (in_data signal))) pc
               (connections (world l))
        else connections (world l)
  end.
Proof.
  intros Ht. destruct l as [w ts], signal as [ty d u]. cbn in Ht. subst ty.
  unfold react, spawn, handleRemoteSignal, try_catch, bind, gets.
  cbn [world tasks in_type in_data].
  destruct (peerConnectionRef w) as [pc|] eqn:Hpc; cbn -[settle]; [|done].
  rewrite Hpc. cbn -[settle].
  split; [done|]. split; [by unfold awaited; cbn; rewrite fmap_app|].
  rewrite (settle_last ts). by destruct r.
Qed.

Lemma answer_only_sets_remote_description_witness :
  callStatus (rendered (settle 0 fulfilled
    (react ringing (RemoteSignal true
       {| in_type := Answer; in_data := "answer-sdp"; from_user := "u2" |})))) =
  calling.
Proof.
  exact (f_equal callStatus (proj1 (proj2 (proj2 (proj2
    (answer_only_sets_remote_description ringing true
       {| in_type := Answer; in_data := "answer-sdp"; from_user := "u2" |}
       fulfilled eq_refl)))))).
Defined.

(** X3.  An [ice-candidate] that arrives while there is no peer
    connection, and a signal of a type the component does not know,
    change nothing and leave nothing pending.  With a connection, the
    candidate is added to it when [addIceCandidate] succeeds; a
    failure is swallowed; the state cells and the signals sent stay
    as they were in both cases. *)
Theorem candidates_need_a_connection
    (l : Loop) (accept : bool) (signal : Incoming) (r : Reply) :
  let l1 := react l (RemoteSignal accept signal) in
  let l2 := settle (length (tasks l)) r l1 in
  match in_type signal, peerConnectionRef (world l) with
  | Unknown _, _ | IceCandidate, None => l1 = l
  | IceCandidate, Some pc =>
      world l1 = world l ∧
      awaited l1 = awaited l ++ [AddIceCandidate pc (in_data signal)] ∧
      tasks l2 = tasks l ∧
      rendered l2 = rendered l ∧
      signals (world l2) = signals (world l) ∧
      alerts (world l2) = alerts (world l) ∧
      connections (world l2) =
        if isResolved r
        then alter (λ c, pc_candidates (candidates c ++ [in_data signal]) c)
               pc (connections (world l))
        else connections (world l)
  | _, _ => True
  end.
Proof.
  destruct l as [w ts], signal as [ty d u].
  unfold react, spawn, handleRemoteSignal, try_catch, bind, gets.
  cbn [world tasks in_type in_data].
  destruct ty; try (by destruct (peerConnectionRef w)).
  - cbn -[settle bool_decide].
    rewrite !(bool_decide_eq_false_2 (IceCandidate = _)) by done.
    cbn [orb]. rewrite andb_false_r.
    destruct (peerConnectionRef w) as [pc|] eqn:Hpc; cbn -[settle];
      rewrite ?Hpc; cbn -[settle]; [|done].
    split; [done|]. split; [by unfold awaited; cbn; rewrite fmap_app|].
    rewrite (settle_last ts). by destruct r.
Qed.


(** X4.  When the microphone is refused, whatever the browser's own
    error says, [startCall] and [answerCall] end with the status back
    at [idle] and [isConnecting] off, one alert with the component's
    fixed message (prefixed for [answerCall]), no stream, no peer
    connection, no signal and nothing pending.  [remoteUserId] keeps
    the value the call had set. *)
Theorem microphone_refused
    (l : Loop) (rs : CallState) (target : option UserId)
    (offer : Blob) (from : UserId) (msg : string) :
  let n := length (tasks l) in
  let after_refusal p := settle n (Rejected msg) (spawn p l) in
  let unchanged l' :=
    tasks l' = tasks l ∧
    signals (world l') = signals (world l) ∧
    localStreamRef (world l') = localStreamRef (world l) ∧
    peerConnectionRef (world l') = peerConnectionRef (world l) ∧
    captures (world l') = captures (world l) ∧
    connections (world l') = connections (world l) in
  (let l' := after_refusal (startCall rs target) in
   unchanged l' ∧
   rendered l' =
     with_remoteUserId target
       (with_callStatus idle (with_isConnecting false (rendered l))) ∧
   alerts (world l') =
     alerts (world l) ++
       ["Failed to access microphone. Please check permissions."]) ∧
  (let l' := after_refusal (answerCall rs offer from) in
   unchanged l' ∧
   rendered l' =
     with_remoteUserId (Some from)
       (with_callStatus idle (with_isConnecting false (rendered l))) ∧
   alerts (world l') =
     alerts (world l) ++
       ["Failed to answer call: Failed to access microphone. Please check permissions."]).
Proof.
  destruct l as [w ts]. unfold spawn, startCall, answerCall, try_catch.
  cbn -[settle]. rewrite !(settle_last ts). by cbn.
Qed.

(** X5.  [answerCall], once the microphone is granted and the three
    negotiation steps succeed, has made a new peer connection that
    carries the capture stream, the remote offer and the local answer,
    has stored it in [peerConnectionRef], and has sent one [answer]
    signal with that answer to [from_user].  The status is
    [connecting] and stays so; the connections that existed before
    are left as they were, none of them closed. *)
Theorem answerCall_sends_the_answer
    (l : Loop) (rs : CallState) (offer answer : Blob) (from : UserId) :
  let n := length (tasks l) in
  let l' := run (spawn (answerCall rs offer from) l)
              [Settle n fulfilled; Settle n fulfilled;
               Settle n (Resolved answer); Settle n fulfilled] in
  tasks l' = tasks l ∧
  signals (world l') =
    signals (world l) ++
      [{| out_type := Answer; out_data := Some answer;
          target_user := Some from |}] ∧
  rendered l' =
    with_remoteUserId (Some from)
      (with_callStatus connecting (with_isConnecting true (rendered l))) ∧
  localStreamRef (world l') = Some (length (captures (world l))) ∧
  peerConnectionRef (world l') = Some (length (connections (world l))) ∧
  connections (world l') =
    connections (world l) ++
      [{| closes := 0; senders := [length (captures (world l))];
          localDescription := Some answer; remoteDescription := Some offer;
          candidates := []; iceRestarts := 0; closure := rs |}].
Proof.
  destruct l as [w ts]. unfold run, spawn, answerCall, try_catch.
  cbn -[settle]. rewrite (settle_last ts). cbn -[settle].
  rewrite (settle_last ts). cbn -[settle].
  rewrite (settle_last ts). cbn -[settle].
  rewrite (settle_last ts). cbn.
  rewrite !alter_last. cbn. done.
Qed.


(** X6.  What a change of a peer connection's state does.  On
    [connected] the call is marked connected and in progress and the
    parent is told; the remote user, the references and the signals
    stay as they are.  On [disconnected] and [failed] the call is
    torn down as by [handleEndCall], and whether [call-ended] is sent
    to the peer is decided by the render that created the connection,
    not by the current one.  The other states, [closed] among them,
    do nothing. *)
Theorem connection_state_changes
    (l : Loop) (pc : nat) (c : PeerConnection) (cs : ConnectionState) :
  connections (world l) !! pc = Some c →
  let l' := react l (ConnectionStateChange pc cs) in
  match cs with
  | cs_connected =>
      rendered l' =
        with_isInCall true
          (with_isConnecting false (with_callStatus connected (rendered l))) ∧
      callStateChanges (world l') = callStateChanges (world l) ++ [true] ∧
      remoteUserId (rendered l') = remoteUserId (rendered l) ∧
      signals (world l') = signals (world l) ∧
      peerConnectionRef (world l') = peerConnectionRef (world l) ∧
      connections (world l') = connections (world l) ∧
      tasks l' = tasks l
  | cs_disconnected | cs_failed =>
      rendered l' =
        {| isInCall := false; isConnecting := false; isMuted := false;
           callStatus := idle; remoteUserId := None |} ∧
      localStreamRef (world l') = None ∧
      peerConnectionRef (world l') = None ∧
      signals (world l') =
        signals (world l) ++
          (if isInCall (closure c) && truthy (remoteUserId (closure c))
           then [{| out_type := CallEnded; out_data := None;
                    target_user := remoteUserId (closure c) |}]
           else []) ∧
      tasks l' = tasks l
  | cs_new | cs_connecting | cs_closed => l' = l
  end.
Proof.
  intros Hc. destruct l as [w ts].
  unfold react, spawn, on_connectionstatechange, bind, gets, rendered in *.
  cbn [world tasks] in *. cbn [bind_res]. rewrite Hc.
  destruct cs; try done.
  - destruct (handleEndCall_world (closure c) w)
      as (w' & -> & ? & ? & _ & ? & _ & _ & ?). by cbn.
  - destruct (handleEndCall_world (closure c) w)
      as (w' & -> & ? & ? & _ & ? & _ & _ & ?). by cbn.
Qed.

Lemma connection_state_changes_witness :
  isInCall (rendered inCall) = true ∧
  signals (world (react inCall (ConnectionStateChange 0 cs_failed))) =
    signals (world inCall) ++ [].
Proof.
  split; [reflexivity|].
  exact (proj1 (proj2 (proj2 (proj2 (connection_state_changes inCall 0 _
    cs_failed eq_refl))))).
Defined.

(** X7.  The candidates a connection finds are addressed by the render
    that made it.  After [startCall] has sent its offer to
    [targetUserId], and after [answerCall] has sent its answer to
    [from_user], a candidate found by the new connection goes out
    with the [remoteUserId] of the render that ran the call, which
    predates the call's own [setRemoteUserId]. *)
Theorem candidates_go_to_the_old_remote_user
    (l : Loop) (rs : CallState) (target : option UserId)
    (offer answer candidate : Blob) (from : UserId) :
  let n := length (tasks l) in
  let pc := length (connections (world l)) in
  let found := IceCandidateFound pc candidate in
  let sent_candidate :=
    {| out_type := IceCandidate; out_data := Some candidate;
       target_user := remoteUserId rs |} in
  (let l' := run (spawn (startCall rs target) l)
               [Settle n fulfilled; Settle n (Resolved offer);
                Settle n fulfilled; found] in
   remoteUserId (rendered l') = target ∧
   signals (world l') =
     signals (world l) ++
       [{| out_type := Offer; out_data := Some offer; target_user := target |};
        sent_candidate]) ∧
  (let l' := run (spawn (answerCall rs offer from) l)
               [Settle n fulfilled; Settle n fulfilled;
                Settle n (Resolved answer); Settle n fulfilled; found] in
   remoteUserId (rendered l') = Some from ∧
   signals (world l') =
     signals (world l) ++
       [{| out_type := Answer; out_data := Some answer;
           target_user := Some from |};
        sent_candidate]).
Proof.
  destruct l as [[st ls rms pcr la ra cs rs' co sg al dg ch] ts].
  unfold run, spawn, startCall, answerCall, try_catch.
  cbn -[settle spawn]. rewrite !(settle_last ts). cbn -[settle spawn].
  rewrite !(settle_last ts). cbn -[settle spawn].
  rewrite !(settle_last ts). cbn -[settle spawn].
  rewrite !(settle_last ts). cbn -[spawn].
  rewrite !alter_last.
  unfold spawn, on_icecandidate, bind, gets. cbn.
  rewrite !lookup_app_r, !Nat.sub_diag by done. cbn.
  by rewrite <- !app_assoc.
Qed.


Lemma run_app (l : Loop) (es1 es2 : list Event) :
  run l (es1 ++ es2) = run (run l es1) es2.
Proof. apply foldl_app. Qed.

Lemma handleEndCall_changes (rs : CallState) (w : World) :
  callStateChanges (after (handleEndCall rs w)) = callStateChanges w ++ [false].
Proof.
  destruct w as [st ls rms pcr la ra cs rs' co sg al dg ch].
  unfold handleEndCall, bind, gets. simpl.
  destruct ls, rms, pcr; simpl;
    by destruct (isInCall rs && truthy (remoteUserId rs)).
Qed.

(** The caller's side of a call up to the moment the connection is
    reported [connected]. *)
Lemma call_established (w : World) (ts : list (task Request Reply World)) (offer answer : Blob)
    (from : UserId) (accept : bool) :
  startRendered (state w) = true →
  let n := length ts in
  run (Queue w ts)
    [ClickStart; Settle n fulfilled; Settle n (Resolved offer);
     Settle n fulfilled;
     RemoteSignal accept
       {| in_type := Answer; in_data := answer; from_user := from |};
     Settle n fulfilled;
     ConnectionStateChange (length (connections w)) cs_connected] =
  Queue
    (set_callStateChanges (callStateChanges w ++ [true])
      (set_signals
         (signals w ++
            [{| out_type := Offer; out_data := Some offer; target_user := None |}])
      (set_connections
         (connections w ++
            [{| closes := 0; senders := [length (captures w)];
                localDescription := Some offer;
                remoteDescription := Some answer;
                candidates := []; iceRestarts := 0; closure := state w |}])
      (set_peerConnectionRef (Some (length (connections w)))
      (set_captures (captures w ++ [{| stops := 0; enabled := true |}])
      (set_localAudioSrc (Some (length (captures w)))
      (set_localStreamRef (Some (length (captures w)))
      (set_state
         {| isInCall := true; isConnecting := false; isMuted := isMuted (state w);
            callStatus := connected; remoteUserId := None |} w))))))))
    ts.
Proof.
  intros Hs n. subst n.
  destruct w as [st ls rms pcr la ra cs rs' co sg al dg ch].
  cbn in Hs.
  apply andb_true_iff in Hs as [Hin Hcon].
  apply negb_true_iff in Hin. apply negb_true_iff in Hcon.
  destruct st as [inc con mut sta rem]. cbn in Hin, Hcon. subst inc con.
  unfold run. cbn [foldl].
  unfold react at 7. unfold rendered, spawn, startCall, try_catch.
  cbn -[settle react].
  unfold react at 6. rewrite (settle_last ts). cbn -[settle react].
  unfold react at 5. rewrite (settle_last ts). cbn -[settle react].
  unfold react at 4. rewrite (settle_last ts). cbn -[settle react].
  rewrite !alter_last. cbn -[settle react].
  unfold react at 3.
  unfold rendered, spawn, handleRemoteSignal, try_catch, bind, gets.
  cbn -[settle react].
  unfold react at 2. rewrite (settle_last ts). cbn -[settle react].
  rewrite !alter_last. cbn -[settle react].
  unfold react, spawn, on_connectionstatechange, bind, gets.
  cbn. rewrite lookup_app_r, Nat.sub_diag by done.
  cbn. reflexivity.
Qed.

(** X19.  A whole call of a caller: the click on [Start Call], the
    three browser operations succeeding, the peer's answer applied,
    the connection reported [connected], then the click on [End
    Call].  The state is reset and the references cleared; the one
    stream and the one connection the call created have been released
    once; nothing is pending.  The only signal sent is the offer,
    addressed to nobody: the button calls [startCall] without a
    target, so the caller's hang-up is not signalled to the peer. *)
Theorem caller_call_round_trip
    (l : Loop) (offer answer : Blob) (from : UserId) (accept : bool) :
  startRendered (rendered l) = true →
  let n := length (tasks l) in
  let stream := length (captures (world l)) in
  let pc := length (connections (world l)) in
  let l' := run l
    [ClickStart; Settle n fulfilled; Settle n (Resolved offer);
     Settle n fulfilled;
     RemoteSignal accept
       {| in_type := Answer; in_data := answer; from_user := from |};
     Settle n fulfilled;
     ConnectionStateChange pc cs_connected;
     ClickEnd] in
  rendered l' =
    {| isInCall := false; isConnecting := false; isMuted := false;
       callStatus := idle; remoteUserId := None |} ∧
  tasks l' = tasks l ∧
  localStreamRef (world l') = None ∧
  peerConnectionRef (world l') = None ∧
  signals (world l') =
    signals (world l) ++
      [{| out_type := Offer; out_data := Some offer; target_user := None |}] ∧
  captures (world l') =
    captures (world l) ++ [{| stops := 1; enabled := true |}] ∧
  connections (world l') =
    connections (world l) ++
      [{| closes := 1; senders := [stream];
          localDescription := Some offer; remoteDescription := Some answer;
          candidates := []; iceRestarts := 0; closure := rendered l |}] ∧
  callStateChanges (world l') = callStateChanges (world l) ++ [true; false].
Proof.
  intros Hs n stream pc l'. subst n stream pc l'.
  destruct l as [w ts]. unfold rendered in Hs. cbn [world tasks] in *.
  change [ClickStart; Settle (length ts) fulfilled;
          Settle (length ts) (Resolved offer); Settle (length ts) fulfilled;
          RemoteSignal accept
            {| in_type := Answer; in_data := answer; from_user := from |};
          Settle (length ts) fulfilled;
          ConnectionStateChange (length (connections w)) cs_connected;
          ClickEnd]
    with ([ClickStart; Settle (length ts) fulfilled;
           Settle (length ts) (Resolved offer); Settle (length ts) fulfilled;
           RemoteSignal accept
             {| in_type := Answer; in_data := answer; from_user := from |};
           Settle (length ts) fulfilled;
           ConnectionStateChange (length (connections w)) cs_connected]
          ++ [ClickEnd]).
  rewrite run_app, call_established by done.
  set (w7 := set_callStateChanges _ _).
  unfold run. cbn [foldl]. unfold react, rendered, spawn. cbn [world tasks].
  replace (endRendered (state w7)) with true by done.
  pose proof (handleEndCall_changes (state w7) w7) as Hch.
  destruct (handleEndCall_world (state w7) w7)
    as (w' & E & Hst & Hls & _ & Hpc & Hcap & Hcon & Hsig).
  rewrite E in Hch |- *. cbn [park world tasks after] in *.
  rewrite Hst, Hls, Hpc, Hcap, Hcon, Hsig, Hch.
  destruct w as [st ls rms pcr la ra cs rs' co sg al dg ch].
  subst w7. cbn. rewrite !alter_last, app_nil_r, <- app_assoc. done.
Qed.

Lemma caller_call_round_trip_witness :
  captures (world (run mounted
    [ClickStart; Settle 0 fulfilled; Settle 0 (Resolved "offer-sdp");
     Settle 0 fulfilled;
     RemoteSignal true
       {| in_type := Answer; in_data := "answer-sdp"; from_user := "u2" |};
     Settle 0 fulfilled; ConnectionStateChange 0 cs_connected; ClickEnd])) =
  [{| stops := 1; enabled := true |}].
Proof.
  exact (proj1 (proj2 (proj2 (proj2 (proj2 (proj2
    (caller_call_round_trip mounted "offer-sdp" "answer-sdp" "u2" true
       eq_refl))))))).
Defined.

(** What [handleEndCall] does to the remote side and the audio
    elements. *)
Lemma handleEndCall_remote (rs : CallState) (w : World) :
  let w' := after (handleEndCall rs w) in
  remotes w' = from_option (λ h, alter stopTracks h (remotes w))
                 (remotes w) (remoteStreamRef w) ∧
  localAudioSrc w' = None ∧ remoteAudioSrc w' = None.
Proof.
  destruct w as [st ls rms pcr la ra cs rs' co sg al dg ch].
  unfold handleEndCall, bind, gets. simpl.
  destruct ls, rms, pcr; simpl;
    by destruct (isInCall rs && truthy (remoteUserId rs)).
Qed.

Lemma on_track_world (pc : nat) (w : World) :
  on_track pc w =
    Done (set_remoteAudioSrc (Some (length (remotes w)))
           (set_remoteStreamRef (Some (length (remotes w)))
             (set_remotes (remotes w ++ [{| stops := 0; enabled := true |}]) w)))
         ().
Proof. reflexivity. Qed.

(** X25.  The remote stream that a peer connection delivers is kept
    in [remoteStreamRef] and played by the remote audio element; the
    call state, the signals and the pending operations are not
    touched.  [handleEndCall], of whatever render, then stops that
    stream once, clears the reference and the audio element, and
    leaves the remote streams received earlier as they were. *)
Theorem remote_stream_is_stopped_at_the_end
    (l : Loop) (pc : nat) (rs : CallState) :
  let h := length (remotes (world l)) in
  let l1 := react l (Track pc) in
  let l2 := spawn (handleEndCall rs) l1 in
  (remoteStreamRef (world l1) = Some h ∧
   remoteAudioSrc (world l1) = Some h ∧
   remotes (world l1) = remotes (world l) ++ [{| stops := 0; enabled := true |}] ∧
   rendered l1 = rendered l ∧
   signals (world l1) = signals (world l) ∧
   captures (world l1) = captures (world l) ∧
   connections (world l1) = connections (world l) ∧
   tasks l1 = tasks l) ∧
  (remoteStreamRef (world l2) = None ∧
   remoteAudioSrc (world l2) = None ∧
   remotes (world l2) = remotes (world l) ++ [{| stops := 1; enabled := true |}] ∧
   tasks l2 = tasks l).
Proof.
  destruct l as [w ts]. cbv zeta. unfold react, spawn, rendered.
  cbn [world tasks]. rewrite on_track_world. cbn [park world tasks].
  split; [by destruct w|].
  set (w1 := set_remoteAudioSrc _ _).
  pose proof (handleEndCall_remote rs w1) as (Hrm & _ & Hra).
  destruct (handleEndCall_world rs w1) as (w' & E & _ & _ & Hrr & _).
  rewrite E in Hrm, Hra |- *. cbn [park after world tasks] in *.
  rewrite Hrm, Hrr, Hra. subst w1. destruct w. cbn.
  by rewrite alter_last.
Qed.

End CallMore.


(** * Further facts about the chat component *)

Section ChatMore.
Import Chat.

(** X9.  An inbound frame reaches one consumer: a [chat_message] the
    timeline, a [typing_indicator] the typing registry, a
    [webrtc_signal] the call component.  Frames of any other type and
    frames that do not parse change nothing.  No inbound frame sets a
    timeout or changes the connection status, and apart from what the
    call component does with a signal handed to it, none writes to a
    socket or leaves anything pending. *)
Theorem inbound_frame_reaches_one_consumer (l : Loop) (data : option Inbound) :
  let l' := react l (SocketMessage data) in
  timeouts (world l') = timeouts (world l) ∧
  connectionStatus (rendered l') = connectionStatus (rendered l) ∧
  match data with
  | Some (in_chat_message m) =>
      timeline l' = timeline l ++ [m] ∧
      registry l' = registry l ∧
      forwarded (world l') = forwarded (world l) ∧
      sockets (world l') = sockets (world l) ∧
      tasks l' = tasks l
  | Some (in_typing_indicator u b) =>
      timeline l' = timeline l ∧
      registry l' = typingUpdater u b (registry l) ∧
      forwarded (world l') = forwarded (world l) ∧
      sockets (world l') = sockets (world l) ∧
      tasks l' = tasks l
  | Some (in_webrtc_signal s) =>
      timeline l' = timeline l ∧
      registry l' = registry l ∧
      forwarded (world l') = forwarded (world l) ++ [s]
  | _ => l' = l
  end.
Proof.
  destruct l as [w ts]. by destruct data as [[]|].
Qed.

Lemma timeline_remoteMessage (l : Loop) (m : Message) :
  timeline (react l (remoteMessage m)) = timeline l ++ [m].
Proof. reflexivity. Qed.

(** X10.  Inbound chat messages enter the timeline in the order of
    their arrival, after what is there, each one as often as it
    arrives: nothing is reordered, merged or dropped. *)
Theorem inbound_messages_are_appended_in_order (l : Loop) (ms : list Message) :
  timeline (run l (remoteMessage <$> ms)) = timeline l ++ ms.
Proof.
  revert l. induction ms as [|m ms IH]; intros l.
  - by rewrite app_nil_r.
  - cbn [fmap list_fmap]. unfold run. cbn [foldl].
    fold (run (react l (remoteMessage m)) (remoteMessage <$> ms)).
    by rewrite IH, timeline_remoteMessage, <- app_assoc.
Qed.

Lemma typingUpdater_elem (u v : UserId) (b : bool) (reg : list UserId) :
  u ∈ typingUpdater v b reg ↔
  if b then u ∈ reg ∨ u = v else u ∈ reg ∧ u ≠ v.
Proof.
  unfold typingUpdater. destruct b.
  - case_bool_decide as Hin; cbn.
    + split; [by left|]. by intros [?| ->].
    + rewrite elem_of_app, list_elem_of_singleton. done.
  - by rewrite list_elem_of_filter, (comm and).
Qed.

Lemma registry_run_last (l : Loop) (events : list (UserId * bool)) (u : UserId) :
  u ∈ registry (run l (remoteTyping <$> events)) ↔
  lastTyping u events = Some true ∨
  (lastTyping u events = None ∧ u ∈ registry l).
Proof.
  revert l. induction events as [|[v b] events IH]; intros l.
  - cbn. split; [by right|]. by intros [?|[_ ?]].
  - cbn [fmap list_fmap]. unfold run. cbn [foldl].
    fold (run (react l (remoteTyping (v, b))) (remoteTyping <$> events)).
    rewrite IH, registry_remoteTyping, typingUpdater_elem. cbn.
    destruct (lastTyping u events) as [x|]; [by intuition congruence|].
    case_decide as Hv; destruct b; cbn; intuition (subst; congruence).
Qed.

(** X11.  After any sequence of typing events delivered to the
    mounted component, a user is in the typing registry exactly when
    the last event received for that user said [is_typing = true]. *)
Theorem registry_holds_who_typed_last
    (token : option string) (t0 : nat) (events : list (UserId * bool)) (u : UserId) :
  u ∈ registry (run (mount token t0) (remoteTyping <$> events)) ↔
  lastTyping u events = Some true.
Proof.
  rewrite registry_run_last. split; [|by left]. intros [H|[_ H]]; [done|].
  unfold registry, mount, rendered in H. cbn in H.
  destruct (truthy token); cbn in H; by apply elem_of_nil in H.
Qed.

(** X12.  A signal the call component hands over is written to the
    render's socket as one [webrtc_signal] frame if that socket is
    open.  If it is not, or there is none, the signal is dropped:
    nothing is queued, nothing changes, and a socket that opens later
    does not send it. *)
Theorem call_signal_needs_open_socket
    (l : Loop) (s : Signaling.Outgoing) (h' : nat) :
  let l' := react l (CallSignal s) in
  if isOpen (ws (rendered l)) (world l) then
    ∃ h, ws (rendered l) = Some h ∧
      sentOn h (world l') = sentOn h (world l) ++ [webrtc_signal s] ∧
      rendered l' = rendered l ∧ tasks l' = tasks l
  else
    l' = l ∧
    sockets (world (react l' (SocketOpen h'))) =
      sockets (world (react l (SocketOpen h'))).
Proof.
  destruct l as [w ts]. unfold react at 1, spawn, handleSignal, rendered.
  cbn [world tasks].
  destruct (isOpen (ws (state w)) w) eqn:Ho.
  - destruct (ws (state w)) as [h|] eqn:Hws; [|done]. exists h.
    split; [done|]. rewrite <- (sentOn_send h (webrtc_signal s) w Ho).
    unfold sendIfOpen, bind, gets. cbn -[isOpen]. by rewrite Ho.
  - assert (sendIfOpen (ws (state w)) (webrtc_signal s) w = Done w ()) as ->; [|done].
    unfold sendIfOpen, bind, gets. cbn -[isOpen]. rewrite Ho.
    by destruct (ws (state w)).
Qed.

Lemma trimStart_allSpaces (n : nat) (s : string) :
  (String.length s ≤ n)%nat → allSpaces (trimStart s) = allSpaces s.
Proof.
  revert s. induction n as [|n IH]; intros s Hn.
  { destruct s; [done|cbn in Hn; lia]. }
  destruct s as [|c1 s1]; [done|]. cbn [String.length] in Hn.
  cbn [trimStart]. destruct (isSpace c1) eqn:H1.
  { rewrite IH by lia. cbn [allSpaces]. rewrite H1. cbn.
    destruct (allSpaces s1) eqn:E1; [done|]. cbn.
    destruct s1 as [|c2 s2]; [done|].
    replace (isSpace2 c1 c2) with false; [cbn|].
    - destruct s2 as [|c3 s3]; [done|].
      replace (isSpace3 c1 c2 c3) with false; [done|].
      revert H1. unfold isSpace, isSpace3.
      generalize (Ascii.nat_of_ascii c1) (Ascii.nat_of_ascii c2)
        (Ascii.nat_of_ascii c3).
      intros n1 n2 n3 H1.
      destruct (Nat.eqb_spec n1 225), (Nat.eqb_spec n1 226),
        (Nat.eqb_spec n1 227), (Nat.eqb_spec n1 239); subst; try done; try lia.
    - revert H1. unfold isSpace, isSpace2.
      generalize (Ascii.nat_of_ascii c1). intros n1 H1.
      destruct (Nat.eqb_spec n1 194); subst; done. }
  destruct s1 as [|c2 s2]; [done|]. cbn [String.length] in Hn.
  destruct (isSpace2 c1 c2) eqn:H2.
  { rewrite IH by lia. cbn [allSpaces]. rewrite H1, H2. cbn.
    destruct (allSpaces s2) eqn:E2; [done|]. cbn.
    destruct s2 as [|c3 s3]; [done|].
    replace (isSpace3 c1 c2 c3) with false; [done|].
    revert H2. unfold isSpace2, isSpace3.
    generalize (Ascii.nat_of_ascii c1) (Ascii.nat_of_ascii c2)
      (Ascii.nat_of_ascii c3).
    intros n1 n2 n3 H2.
    destruct (Nat.eqb_spec n1 194); [subst|done]. done. }
  destruct s2 as [|c3 s3]; [done|]. cbn [String.length] in Hn.
  destruct (isSpace3 c1 c2 c3) eqn:H3; [|done].
  rewrite IH by lia. cbn [allSpaces]. by rewrite H1, H2, H3.
Qed.

Lemma trimEnd_empty (s : string) :
  nonEmpty (trimEnd s) = negb (allSpaces s).
Proof.
  destruct s as [|c s]; [done|]. cbn [trimEnd].
  by destruct (allSpaces (String c s)).
Qed.

Lemma trim_empty (s : string) :
  nonEmpty (trim s) = negb (allSpaces s).
Proof.
  unfold trim. rewrite trimEnd_empty.
  by rewrite (trimStart_allSpaces (String.length s)).
Qed.

(** [trim] at work: blanks, the one-byte control characters, a lone
    U+00A0, U+2028 before and U+FEFF, SPACE and U+3000 after an [x], a
    euro sign followed by a blank, and U+0085 and U+200B, which are
    not white space. *)
Example trim_examples :
  trim "  a b " = "a b" ∧
  trim (utf8 [9; 10; 97; 11; 12; 13; 32]) = "a" ∧
  trim (utf8 [194; 160]) = "" ∧
  trim (utf8 [226; 128; 168; 120; 239; 187; 191; 32; 227; 128; 128]) = "x" ∧
  trim (utf8 [226; 130; 172; 32]) = utf8 [226; 130; 172] ∧
  trim (utf8 [32; 194; 133; 32]) = utf8 [194; 133] ∧
  allSpaces (utf8 [226; 128; 139]) = false.
Proof. vm_compute. by repeat split. Qed.

(** X13.  [sendMessage] with a content made only of white space, the
    empty content included, returns at once: no request is made and
    nothing changes.  Any other content is posted as it was typed,
    untrimmed, with sender [user], and nothing changes before the
    request is settled. *)
Theorem blank_content_is_not_posted (rs : ChatState) (content : string) (w : World) :
  if allSpaces content then sendMessage rs content w = Done w ()
  else ∃ k, sendMessage rs content w = Paused w (PostMessage content "user") k.
Proof.
  unfold sendMessage. rewrite trim_empty.
  destruct (allSpaces content); cbn; [done|]. by eexists.
Qed.



(** Without a usable token the component is inert. *)
Lemma no_token_inert
    (token : option string) (t0 : nat) (es : list Event) :
  truthy token = false →
  Forall (λ e, needsNoSocket e = true) es →
  let l := run (mount token t0) es in
  sockets (world l) = [] ∧
  rendered l = rendered (mount token t0) ∧
  inputEnabled (rendered l) = false ∧
  timeouts (world l) = [] ∧
  forwarded (world l) = [] ∧
  tasks l = [].
Proof.
  intros Htok Hes l. subst l.
  assert (Hinv : ∀ l : Loop,
    (tasks l = [] ∧ sockets (world l) = [] ∧ timeouts (world l) = [] ∧
     forwarded (world l) = [] ∧
     rendered l = rendered (mount token t0)) →
    tasks (run l es) = [] ∧ sockets (world (run l es)) = [] ∧
    timeouts (world (run l es)) = [] ∧ forwarded (world (run l es)) = [] ∧
    rendered (run l es) = rendered (mount token t0)).
  { induction Hes as [|e es He _ IH]; intros l Hl; [done|].
    unfold run. cbn [foldl]. apply IH. clear IH.
    destruct Hl as (Hts & Hso & Htm & Hfw & Hrs).
    destruct l as [[st ref so tm sq nw fw tok] ts].
    unfold rendered, mount in *. cbn in Hts, Hso, Htm, Hfw, Hrs.
    rewrite Htok in Hrs. subst ts so tm fw st.
    destruct e as [| | | | | | |[|i] r|]; try discriminate He;
      cbn; by rewrite Htok. }
  destruct (Hinv (mount token t0)) as (? & ? & ? & ? & Hrs).
  { unfold mount, rendered. cbn. by rewrite Htok. }
  split_and!; try done. rewrite Hrs. unfold mount, rendered. cbn.
  by rewrite Htok.
Qed.

(** X15.  Mounted without a usable token, the component creates no
    socket, and nothing the user or the call component does changes
    that: keystrokes and submissions are not accepted, signals of the
    call component are dropped, and no request is ever made. *)
Theorem without_token_nothing_happens
    (token : option string) (t0 : nat) (es : list Event) :
  truthy token = false →
  Forall (λ e, needsNoSocket e = true) es →
  let l := run (mount token t0) es in
  sockets (world l) = [] ∧
  rendered l = rendered (mount token t0) ∧
  inputEnabled (rendered l) = false ∧
  timeouts (world l) = [] ∧
  forwarded (world l) = [] ∧
  tasks l = [].
Proof. apply no_token_inert. Qed.


Lemma without_token_nothing_happens_witness :
  sockets (world (run (mount None 0)
    [Keystroke "hello"; Submit; Elapse 5000])) = [].
Proof.
  refine (proj1 (without_token_nothing_happens None 0
    [Keystroke "hello"; Submit; Elapse 5000] eq_refl _)).
  repeat constructor.
Defined.

Lemma enqueue_Permutation (t : Timer) (q : list Timer) :
  enqueue t q ≡ₚ t :: q.
Proof.
  induction q as [|x q IH]; [done|]. cbn.
  destruct (Nat.leb (due x) (due t)); [|done].
  by rewrite IH, Permutation_swap.
Qed.

(** A world that differs from a tidy one in neither the timeouts nor
    [typingTimeoutRef] is tidy. *)
Lemma oneTypingTimeout_frame (w w' : World) :
  timeouts w' = timeouts w → typingTimeoutRef w' = typingTimeoutRef w →
  oneTypingTimeout w → oneTypingTimeout w'.
Proof.
  unfold oneTypingTimeout, typingTimeouts. by intros -> ->.
Qed.

Lemma oneTypingTimeout_tail (w : World) (x : Timer) (q : list Timer) (w' : World) :
  timeouts w = x :: q → timeouts w' = q →
  typingTimeoutRef w' = typingTimeoutRef w →
  oneTypingTimeout w → oneTypingTimeout w'.
Proof.
  unfold oneTypingTimeout, typingTimeouts. intros -> -> ->.
  rewrite filter_cons. intros [Hlen Hall]. case_decide.
  - cbn in Hlen. apply Forall_cons in Hall as [_ Hall]. split; [lia|done].
  - done.
Qed.

Lemma runJob_quiet (j : Job) (w : World) :
  timeouts (after (runJob j w)) = timeouts w ∧
  typingTimeoutRef (after (runJob j w)) = typingTimeoutRef w.
Proof.
  destruct w as [st ref so tm sq nw fw tok].
  destruct j as [rs|token]; cbn -[truthy isOpen].
  - unfold sendTypingIndicator, sendIfOpen, bind, gets. cbn -[isOpen].
    destruct (ws rs) as [h|]; cbn -[isOpen]; [|done].
    by destruct (isOpen _ _).
  - by destruct (truthy token).
Qed.

Lemma fireDue_oneTypingTimeout (fuel t : nat) (w : World) :
  oneTypingTimeout w → oneTypingTimeout (fireDue fuel t w).
Proof.
  revert w. induction fuel as [|fuel IH]; intros w Hw; [done|].
  cbn [fireDue]. destruct (timeouts w) as [|x q] eqn:Hq; [done|].
  destruct (Nat.leb (due x) t); [|done]. apply IH.
  destruct (runJob_quiet (job x)
    (set_now (Nat.max (now w) (due x)) (set_timeouts q w))) as [Htm Href].
  eapply oneTypingTimeout_tail; [exact Hq| | |exact Hw].
  - by rewrite Htm.
  - by rewrite Href.
Qed.

Lemma typingTimeouts_cleared (ref : option nat) (tm : list Timer) :
  Forall (λ t, ref = Some (tid t))
    (filter (λ t, isTypingStop (job t)) tm) →
  filter (λ t, isTypingStop (job t))
    (from_option (λ n, filter (λ t, tid t ≠ n) tm) tm ref) = [].
Proof.
  intros Hall. destruct ref as [m|]; cbn.
  - induction tm as [|x q IH]; [done|].
    rewrite filter_cons in Hall. rewrite filter_cons.
    case_decide as Hx.
    + apply Forall_cons in Hall as [Hm Hall].
      case_decide as Hm'; [by injection Hm as ->|]. by apply IH.
    + case_decide; [|by apply IH]. rewrite filter_cons.
      rewrite decide_False by done. by apply IH.
  - destruct (filter _ tm); [done|].
    by apply Forall_cons in Hall as [? _].
Qed.

Lemma keystroke_oneTypingTimeout (value : string) (w : World) :
  oneTypingTimeout w → oneTypingTimeout (keystroke value w).
Proof.
  intros [_ Hall].
  destruct w as [[s ms nm cs ty tu vc] ref so tm sq nw fw tok].
  unfold oneTypingTimeout, typingTimeouts in *. cbn in Hall.
  pose proof (typingTimeouts_cleared ref tm Hall) as Hgone.
  unfold keystroke, handleTyping, sendTypingIndicator, sendIfOpen, bind, gets.
  cbn -[isOpen].
  assert (Hnew : ∀ rs q,
    filter (λ t, isTypingStop (job t)) q = [] →
    filter (λ t, isTypingStop (job t))
      (enqueue {| tid := S sq; due := nw + 1000; job := TypingStop rs |} q) =
    [{| tid := S sq; due := nw + 1000; job := TypingStop rs |}]).
  { intros rs q Hq. apply Permutation_singleton_r.
    rewrite (enqueue_Permutation _ q), filter_cons, Hq.
    by rewrite decide_True by done. }
  destruct ty; cbn -[isOpen]; [|destruct s as [h|]; cbn -[isOpen];
    [destruct (isOpen _ _); cbn -[isOpen]|]];
    destruct ref as [n|]; cbn in Hgone |- *;
    rewrite Hnew by done; cbn; split; (lia || by repeat constructor).
Qed.

Lemma onclose_oneTypingTimeout (h : nat) (w : World) :
  oneTypingTimeout w → oneTypingTimeout (after (onclose h w)).
Proof.
  destruct w as [st ref so tm sq nw fw tok].
  unfold oneTypingTimeout, typingTimeouts. cbn.
  by rewrite (filter_Permutation _ _ _ (enqueue_Permutation _ tm)), filter_cons,
    decide_False by (by intros []).
Qed.

Lemma sendIfOpen_quiet (ws : option nat) (f : Frame) (w : World) :
  ∃ w', sendIfOpen ws f w = Done w' () ∧
    timeouts w' = timeouts w ∧ typingTimeoutRef w' = typingTimeoutRef w.
Proof.
  destruct w as [st ref so tm sq nw fw tok].
  unfold sendIfOpen, bind, gets. cbn -[isOpen].
  destruct ws as [h|]; [|by eexists].
  destruct (isOpen _ _); by eexists.
Qed.

Lemma sendMessage_quiet (rs : ChatState) (content : string) (w : World) :
  sendMessage rs content w = Done w () ∨
  ∃ q k, sendMessage rs content w = Paused w q k ∧ quiet k.
Proof.
  destruct (allSpaces content) eqn:Hs.
  { left. unfold sendMessage. by rewrite trim_empty, Hs. }
  right.
  destruct (sendMessage_segments rs content w) as (k & Hk & Hres);
    [by rewrite trim_empty, Hs|].
  exists (PostMessage content "user"), k. split; [done|].
  intros r w'. rewrite Hres. eexists. split; [done|].
  destruct (failureReason r); [by destruct w'|].
  by destruct (sendIfOpen_quiet (ws rs) (chat_message content) w')
    as (w'' & -> & ? & ?).
Qed.

(** Every step of the component keeps the typing timeouts tidy and
    the pending requests quiet. *)
Lemma react_oneTypingTimeout (l : Loop) (e : Event) :
  oneTypingTimeout (world l) ∧ Forall (λ qk, quiet qk.2) (tasks l) →
  oneTypingTimeout (world (react l e)) ∧
  Forall (λ qk, quiet qk.2) (tasks (react l e)).
Proof.
  intros [Hw Hts].
  assert (Hdone : ∀ (p : Proc unit) (l0 : Loop) w',
    p (world l0) = Done w' () →
    timeouts w' = timeouts (world l0) →
    typingTimeoutRef w' = typingTimeoutRef (world l0) →
    oneTypingTimeout (world l0) ∧ Forall (λ qk, quiet qk.2) (tasks l0) →
    oneTypingTimeout (world (spawn p l0)) ∧
    Forall (λ qk, quiet qk.2) (tasks (spawn p l0))).
  { intros p l0 w' Hp Htm Href [Hw0 Hts0]. unfold spawn. rewrite Hp. cbn.
    split; [|done]. by eapply oneTypingTimeout_frame. }
  destruct e as [v| |dt|h|d|h|h|i r|s]; cbn [react].
  - destruct (inputEnabled (rendered l)); [|done].
    split; [|done]. by apply keystroke_oneTypingTimeout.
  - destruct (inputEnabled (rendered l)); [|done].
    unfold handleSubmit. destruct (nonEmpty _); [|done].
    destruct (sendIfOpen_quiet (ws (rendered l)) (typing false)
      (world (spawn (setNewMessage EmptyString)
         (spawn (sendMessage (rendered l) (newMessage (rendered l))) l))))
      as (w3 & Hw3 & ? & ?).
    eapply Hdone; [exact Hw3|done..|].
    eapply Hdone; [reflexivity| | |].
    + by destruct (world (spawn (sendMessage _ _) l)).
    + by destruct (world (spawn (sendMessage _ _) l)).
    + unfold spawn.
      destruct (sendMessage_quiet (rendered l) (newMessage (rendered l))
        (world l)) as [->|(q & k & -> & Hk)]; cbn; [done|].
      split; [done|]. apply Forall_app. split; [done|]. by constructor.
  - split; [|done]. unfold sync, elapse. cbn [world].
    eapply oneTypingTimeout_frame; [| |by apply (fireDue_oneTypingTimeout
      (length (timeouts (world l))) (now (world l) + dt) (world l))];
      by destruct (fireDue _ _ _).
  - eapply Hdone; [reflexivity| | |done]; by destruct (world l).
  - destruct d as [[]|]; (eapply Hdone; [reflexivity| | |done]);
      by destruct (world l).
  - split; [|by unfold spawn; destruct (world l)].
    unfold spawn. generalize (onclose_oneTypingTimeout h (world l) Hw).
    by destruct (world l).
  - eapply Hdone; [reflexivity| | |done]; by destruct (world l).
  - unfold settle.
    destruct ((tasks l : list (Request * (Reply → Proc unit))) !! i)
      as [[q k]|] eqn:Hi; [|done].
    pose proof (Forall_lookup_1 _ _ _ _ Hts Hi) as Hk. cbn in Hk.
    destruct (Hk r (world l)) as (w' & -> & Htm & Href). cbn.
    split; [by eapply oneTypingTimeout_frame|]. by apply Forall_delete.
  - destruct (sendIfOpen_quiet (ws (rendered l)) (webrtc_signal s) (world l))
      as (w' & Hw' & ? & ?).
    by eapply Hdone.
Qed.

(** X16.  Whatever happens to the mounted component, at most one
    typing-stop callback is pending at any time, and [typingTimeoutRef]
    names it: every keystroke cancels the callback of the one before. *)
Theorem one_typing_timeout_at_a_time
    (token : option string) (t0 : nat) (es : list Event) :
  oneTypingTimeout (world (run (mount token t0) es)).
Proof.
  assert (Hrun : ∀ l : Loop,
    oneTypingTimeout (world l) ∧ Forall (λ qk, quiet qk.2) (tasks l) →
    oneTypingTimeout (world (run l es))).
  { induction es as [|e es IH]; intros l Hl; [by destruct Hl|].
    unfold run. cbn [foldl]. apply IH. by apply react_oneTypingTimeout. }
  apply Hrun. split; [|done].
  unfold oneTypingTimeout, typingTimeouts, mount. cbn. split; [lia|done].
Qed.

Lemma rounds_snoc (k : nat) :
  rounds k ++ [typing true; typing false] = rounds (S k).
Proof. induction k as [|k IH]; [done|]. cbn. by rewrite IH. Qed.

Lemma typingStep_alternates (h : nat) (base : list Frame) (w : World) (e : TypingEvent) :
  typingAlternates h base w → typingAlternates h base (typingStep w e).
Proof.
  intros (Hws & Ho & k & Hk).
  destruct w as [[s ms nm cs ty tu vc] ref so tm sq nw fw tok].
  unfold typingAlternates, sentOn in *. cbn in Hws, Ho, Hk. subst s.
  pose proof Ho as Ho'. apply bool_decide_eq_true_1 in Ho'.
  destruct (so !! h) as [[rd sn]|] eqn:E; [|done]. cbn in Ho', Hk.
  injection Ho' as ->.
  destruct e as [v|dt]; cbn [typingStep];
    unfold keystroke, elapse, handleTyping, sendTypingIndicator, sendIfOpen,
      bind, gets; destruct ty.
  - destruct Hk as (Hs & n & rs & d & Hrs & -> & ->).
    cbn. destruct (decide (n ≠ n)) as [Hn|_]; [by destruct Hn|].
    cbn. rewrite E. cbn.
    split_and!; [done|by rewrite bool_decide_eq_true_2|].
    exists k. split; [done|]. eexists _, _, _; (split; [|split; reflexivity]); done.
  - destruct Hk as [Hs ->]. cbn -[isOpen]. cbn. rewrite E. cbn.
    rewrite bool_decide_eq_true_2 by done. cbn.
    destruct ref as [n|]; cbn; rewrite list_lookup_alter_eq, E; cbn;
      (split_and!; [done|by rewrite bool_decide_eq_true_2|]);
      exists k; (split; [by rewrite Hs, <- app_assoc|]); eexists _, _, _; (split; [|split; reflexivity]); done.
  - destruct Hk as (Hs & n & rs & d & Hrs & -> & ->).
    destruct rs as [s' ms' nm' cs' ty' tu' vc']. cbn in Hrs. subst s'.
    cbn -[Nat.leb]. destruct (Nat.leb d (nw + dt)); cbn.
    + rewrite E. cbn. rewrite bool_decide_eq_true_2 by done. cbn.
      rewrite list_lookup_alter_eq, E. cbn.
      split_and!; [done|by rewrite bool_decide_eq_true_2|].
      exists (S k). split; [|done].
      by rewrite Hs, <- rounds_snoc, <- !app_assoc.
    + rewrite E. cbn.
      split_and!; [done|by rewrite bool_decide_eq_true_2|].
      exists k. split; [done|]. eexists _, _, _; (split; [|split; reflexivity]); done.
  - destruct Hk as [Hs ->]. cbn. rewrite E. cbn.
    split_and!; [done|by rewrite bool_decide_eq_true_2|]. by exists k.
Qed.

(** X17.  However keystrokes and pauses alternate, from a component
    that is not typing, has no timeout pending and holds an open
    socket, the [typing] frames written to that socket come in whole
    rounds of [true] followed by [false], plus one [true] exactly
    while [isTyping] is on: never two of a kind in a row. *)
Theorem typing_frames_alternate
    (w : World) (h : nat) (es : list TypingEvent) :
  ws (state w) = Some h → isOpen (Some h) w = true →
  isTyping (state w) = false → timeouts w = [] →
  let w' := foldl typingStep w es in
  ∃ k, typingSent h w' =
         typingSent h w ++ rounds k ++
           (if isTyping (state w') then [typing true] else []).
Proof.
  intros Hws Ho Hty Htm w'.
  assert (Hinv : typingAlternates h (sentOn h w) w').
  { subst w'.
    assert (H0 : typingAlternates h (sentOn h w) w).
    { split_and!; [done..|]. exists 0. rewrite Hty. by rewrite app_nil_r. }
    revert H0. generalize (sentOn h w) as base. generalize w as w0.
    induction es as [|e es IH]; intros w0 base H0; [done|].
    cbn [foldl]. apply IH. by apply typingStep_alternates. }
  destruct Hinv as (_ & _ & k & Hk). exists k. unfold typingSent.
  assert (Hr : filter (λ f, isTypingFrame f) (rounds k) = rounds k).
  { clear. induction k as [|k IH]; [done|].
    change (rounds (S k)) with (typing true :: typing false :: rounds k).
    rewrite !filter_cons_True by done. by rewrite IH. }
  destruct (isTyping (state w')).
  - destruct Hk as [-> _]. rewrite !filter_app, Hr.
    by rewrite filter_cons_True by done.
  - destruct Hk as [-> _]. by rewrite !filter_app, Hr, app_nil_r.
Qed.

Lemma typing_frames_alternate_witness :
  let w' := foldl typingStep (world online) [Key "h"; Pause 400; Key "he"] in
  ∃ k, typingSent 0 w' =
         typingSent 0 (world online) ++ rounds k ++
           (if isTyping (state w') then [typing true] else []).
Proof.
  exact (typing_frames_alternate (world online) 0
    [Key "h"; Pause 400; Key "he"] eq_refl eq_refl eq_refl eq_refl).
Defined.



End ChatMore.


(** * Facts about the application shell *)

Section AppFacts.
Import App.
Variable stringify : Body → string.
Variable parse : string → option Body.

(** What a login leaves behind, by its first failure if any. *)
Lemma login_outcome
    (l : Loop) (rs : AppState) (username : string) (r1 r2 r3 r4 : Reply) :
  let l' := login stringify rs username r1 r2 r3 r4 l in
  let s := state (world l) in
  let s' := state (world l') in
  tasks l' = tasks l ∧
  loading s' = false ∧
  apiKey s' = apiKey s ∧
  match loginError r1 r2 r3 r4 with
  | Some msg =>
      error s' = msg ∧ user s' = user s ∧ wsToken s' = wsToken s ∧
      localStorage (world l') = localStorage (world l)
  | None =>
      error s' = EmptyString ∧
      user s' = Some (bodyOf r2) ∧
      wsToken s' = bodyOf r4 !! "token" ∧
      localStorage (world l') =
        <["apiKey" := apiKey rs]>
          (<["user" := stringify (bodyOf r2)]> (localStorage (world l)))
  end.
Proof.
  destruct l as [[st ls] ts].
  unfold login, spawn, handleLogin, fetchOk, json, try_catch.
  cbn -[settle Chat.ok Chat.show]. rewrite (settle_last ts).
  unfold loginError, fetchError, jsonError.
  destruct r1 as [s1 b1|m1]; cbn -[settle Chat.ok Chat.show];
    [|by rewrite !(settle_beyond ts)].
  destruct (Chat.ok s1); cbn -[settle Chat.ok Chat.show];
    [|by rewrite !(settle_beyond ts)].
  rewrite (settle_last ts).
  destruct r2 as [s2 b2|m2]; cbn -[settle Chat.ok Chat.show];
    [|by rewrite !(settle_beyond ts)].
  rewrite (settle_last ts).
  destruct r3 as [s3 b3|m3]; cbn -[settle Chat.ok Chat.show];
    [|by rewrite !(settle_beyond ts)].
  destruct (Chat.ok s3); cbn -[settle Chat.ok Chat.show];
    [|by rewrite !(settle_beyond ts)].
  rewrite (settle_last ts).
  by destruct r4 as [s4 b4|m4].
Qed.



(** X21.  While a login is under way the form does not take another
    one.  A submission with a username and a key turns [loading] on
    and asks for the user to be created, with the key of that render;
    a further submission before the login has ended changes nothing.
    A submission that lacks the username or the key asks for nothing
    and shows the form's own message. *)
Theorem one_login_at_a_time
    (l : Loop) (username other : option string) :
  showsChat (state (world l)) = false →
  loading (state (world l)) = false →
  let rs := state (world l) in
  let l1 := react stringify l (SubmitLogin username) in
  match username with
  | Some name =>
      if Chat.nonEmpty name && Chat.nonEmpty (apiKey rs) then
        loading (state (world l1)) = true ∧
        error (state (world l1)) = EmptyString ∧
        awaited l1 = awaited l ++ [CreateUser (apiKey rs) name] ∧
        react stringify l1 (SubmitLogin other) = l1
      else
        tasks l1 = tasks l ∧
        error (state (world l1)) = "Please enter both username and API key"
  | None =>
      tasks l1 = tasks l ∧
      error (state (world l1)) = "Please enter both username and API key"
  end.
Proof.
  intros Hc Hl. destruct l as [[[u k t ld er] ls] ts].
  cbn in Hc, Hl. subst ld. unfold react, showsChat in *. cbn in Hc |- *.
  rewrite Hc. cbn.
  destruct username as [name|]; [|done]. unfold onSubmit. cbn.
  destruct (Chat.nonEmpty name && Chat.nonEmpty k); [|done].
  unfold spawn, handleLogin, fetchOk, try_catch. cbn.
  rewrite Hc. cbn. split_and!; try done.
  unfold awaited. cbn. by rewrite fmap_app.
Qed.

(** X22.  Logging out clears the user and the token and removes both
    stored entries, leaving every other entry of [localStorage] and
    the key typed into the form alone.  A successful login followed
    by a logout leaves in [localStorage] what was there before the
    login, less those two entries. *)
Theorem logout_removes_what_login_stored
    (l : Loop) (rs : AppState) (username : string) (r1 r2 r3 r4 : Reply) :
  loginError r1 r2 r3 r4 = None →
  let l1 := login stringify rs username r1 r2 r3 r4 l in
  let l2 := spawn handleLogout l1 in
  showsChat (state (world l1)) = true ∧
  showsChat (state (world l2)) = false ∧
  wsToken (state (world l2)) = None ∧
  apiKey (state (world l2)) = apiKey (state (world l)) ∧
  localStorage (world l2) =
    delete "apiKey" (delete "user" (localStorage (world l))) ∧
  tasks l2 = tasks l.
Proof.
  intros Hok.
  pose proof (login_outcome l rs username r1 r2 r3 r4) as H.
  cbv zeta in H. rewrite Hok in H.
  destruct H as (Hts & _ & Hk & _ & Hu & _ & Hs). cbv zeta.
  destruct (login stringify rs username r1 r2 r3 r4 l) as [[st ls] ts'].
  cbn in Hts, Hk, Hu, Hs. subst ts' ls. destruct st as [u k t ld er].
  cbn in Hu, Hk. subst u k. unfold showsChat, spawn, handleLogout. cbn.
  split_and!; try done.
  rewrite (delete_delete _ "apiKey" "user"), delete_insert_eq.
  by rewrite (delete_delete _ "user" "apiKey"), delete_insert_eq.
Qed.

(** X23.  After a reload the token is gone.  Whatever [localStorage]
    holds, the remounted application has no token; if it restores a
    user and shows the chat, the chat is mounted without one, creates
    no socket and keeps its input disabled whatever the user does. *)
Theorem reload_shows_a_chat_that_cannot_connect
    (storage : gmap string string) (t0 : nat)
    (chatLoop : Chat.Loop) (es : list Chat.Event) :
  let rs := state (mount parse storage) in
  wsToken rs = None ∧
  (chat rs t0 = Some chatLoop →
   Forall (λ e, Chat.needsNoSocket e = true) es →
   Chat.sockets (world (Chat.run chatLoop es)) = [] ∧
   Chat.inputEnabled (Chat.rendered (Chat.run chatLoop es)) = false).
Proof.
  assert (Htok : wsToken (state (mount parse storage)) = None).
  { unfold mount. destruct (storage !! "user") as [saved|]; [|done].
    destruct (Chat.nonEmpty saved); [|done]. by destruct (parse saved). }
  split; [done|]. unfold chat. rewrite Htok.
  destruct (showsChat _); [|done]. intros [= <-] Hes.
  by destruct (no_token_inert None t0 es eq_refl Hes) as (? & _ & ? & _).
Qed.

(** X24.  What a successful login stores brings the user back on the
    next start, provided the serialized user is read back as it was
    written: the remounted application has that user and the key the
    login used, and no token. *)
Theorem login_survives_reload_without_token
    (l : Loop) (rs : AppState) (username : string) (r1 r2 r3 r4 : Reply) :
  loginError r1 r2 r3 r4 = None →
  parse (stringify (bodyOf r2)) = Some (bodyOf r2) →
  Chat.nonEmpty (stringify (bodyOf r2)) = true →
  let l1 := login stringify rs username r1 r2 r3 r4 l in
  let w := mount parse (localStorage (world l1)) in
  user (state w) = user (state (world l1)) ∧
  user (state w) = Some (bodyOf r2) ∧
  apiKey (state w) = apiKey rs ∧
  wsToken (state w) = None ∧
  localStorage w = localStorage (world l1).
Proof.
  intros Hok Hparse Hne.
  pose proof (login_outcome l rs username r1 r2 r3 r4) as H.
  cbv zeta in H. rewrite Hok in H.
  destruct H as (_ & _ & _ & _ & Hu & _ & Hs). cbv zeta.
  rewrite Hu, Hs. unfold mount.
  rewrite lookup_insert_ne by done. rewrite !lookup_insert_eq.
  cbn. by rewrite Hne, Hparse.
Qed.

End AppFacts.

Lemma one_login_at_a_time_witness :
  tasks (App.react (λ _, "{}")
    {| world := App.mount (λ _, None) ∅; tasks := [] |}
    (App.SubmitLogin (Some "ann"))) = [].
Proof.
  exact (proj1 (one_login_at_a_time (λ _, "{}")
    {| world := App.mount (λ _, None) ∅; tasks := [] |}
    (Some "ann") None eq_refl eq_refl)).
Defined.

Lemma logout_removes_what_login_stored_witness :
  App.showsChat (App.state (world
    (App.login (λ _, "{}") (App.state (App.mount (λ _, None) ∅)) "ann"
       (App.Settled 201 ∅) (App.Settled 201 ∅)
       (App.Settled 200 ∅) (App.Settled 200 ∅)
       {| world := App.mount (λ _, None) ∅; tasks := [] |}))) = true.
Proof.
  exact (proj1 (logout_removes_what_login_stored (λ _, "{}")
    {| world := App.mount (λ _, None) ∅; tasks := [] |}
    (App.state (App.mount (λ _, None) ∅)) "ann"
    (App.Settled 201 ∅) (App.Settled 201 ∅)
    (App.Settled 200 ∅) (App.Settled 200 ∅) eq_refl)).
Defined.

Lemma reload_shows_a_chat_that_cannot_connect_witness :
  Chat.sockets (world (Chat.run (Chat.mount None 0)
    [Chat.Keystroke "hello"; Chat.Submit])) = [].
Proof.
  refine (proj1 (proj2 (reload_shows_a_chat_that_cannot_connect
    (λ _, Some ∅) {["user" := "{}"]} 0 (Chat.mount None 0)
    [Chat.Keystroke "hello"; Chat.Submit]) eq_refl _)).
  repeat constructor.
Defined.

Lemma login_survives_reload_without_token_witness :
  App.wsToken (App.state (App.mount (λ _, Some ∅)
    (App.localStorage (world
       (App.login (λ _, "{}") (App.state (App.mount (λ _, None) ∅)) "ann"
          (App.Settled 201 ∅) (App.Settled 201 ∅)
          (App.Settled 200 ∅) (App.Settled 200 {["token" := "t"]})
          {| world := App.mount (λ _, None) ∅; tasks := [] |}))))) = None.
Proof.
  exact (proj1 (proj2 (proj2 (proj2 (login_survives_reload_without_token
    (λ _, "{}") (λ _, Some ∅)
    {| world := App.mount (λ _, None) ∅; tasks := [] |}
    (App.state (App.mount (λ _, None) ∅)) "ann"
    (App.Settled 201 ∅) (App.Settled 201 ∅)
    (App.Settled 200 ∅) (App.Settled 200 {["token" := "t"]})
    eq_refl eq_refl eq_refl))))).
Defined.
